(** * localslackirc: the Slack gateway (src/slack.py)

    A shallow embedding of the [Slack] class: the typed vocabulary
    (Channel, User, Message, ...), the memoised channel listing, the
    explicit user cache and the [events_iter] generator, together with
    the properties of the caching discipline and of the event
    normaliser.

    Conventions.
    - A raw payload (what the transport hands over, what [json.loads]
      produced) is a [json] value; Python dictionaries are finite maps
      with string keys.
    - A Python method of [Slack] is a function in the monad [M]: it
      takes the instance state and gives back either a returned value
      or a raised exception, and the state it leaves behind.
    - The transport ([SlackClient]) is not part of the repository: it
      is an interface ([Transport]) over an arbitrary connection state.
      Every call that goes through it is recorded in the [trace] of the
      instance, which plays the part of the call counter of a mock. *)

From stdpp Require Import gmap strings list fin_maps.
From Stdlib Require Import ZArith.

Set Warnings "-register-all".

Open Scope string_scope.
Open Scope list_scope.

(** ** Raw payloads *)

(** JSON numbers are kept to the integers: the gateway never looks at
    a number. *)
Inductive json :=
| JNull
| JBool (b : bool)
| JNum (z : Z)
| JStr (s : string)
| JList (l : list json)
| JDict (d : gmap string json).

(** Python truthiness of a raw value ([if x], [not x]). *)
Definition truthy (j : json) : bool :=
  match j with
  | JNull => false
  | JBool b => b
  | JNum z => negb (z =? 0)%Z
  | JStr s => negb (String.eqb s "")
  | JList l => match l with [] => false | _ => true end
  | JDict d => negb (bool_decide (d = ∅))
  end.

(** [x == 'literal'] for a value that may be absent ([dict.get] gives
    [None] then): only a string equal to the literal compares equal. *)
Definition eq_str (x : option json) (lit : string) : bool :=
  match x with
  | Some (JStr s) => String.eqb s lit
  | _ => false
  end.

(** Truthiness of the result of [dict.get]: an absent key gives
    Python's [None], which is false. *)
Definition truthy_opt (x : option json) : bool :=
  match x with
  | Some j => truthy j
  | None => false
  end.

(** Whether [x in {...}] can hash [x]: lists and dictionaries cannot be
    hashed. *)
Definition hashable (x : option json) : bool :=
  match x with
  | Some (JList _) | Some (JDict _) => false
  | _ => true
  end.

(** ** The typed vocabulary *)

Record Response := mkResponse {
  ok : bool;
  headers : gmap string string
}.

Record Topic := mkTopic { value : string }.

Record Channel := mkChannel {
  id : string;
  name_normalized : string;
  purpose : Topic;
  topic : Topic;
  members : gset string
}.

Definition name (c : Channel) : string := name_normalized c.

(** [Channel.real_topic]: [if self.topic.value] is the truth value of a
    string, false exactly for the empty one. *)
Definition real_topic (c : Channel) : string :=
  if negb (String.eqb (value (topic c)) "") then value (topic c)
  else value (purpose c).

Record Message := mkMessage {
  channel : string;
  user : string;
  text : string
}.

Record MessageEdit := mkMessageEdit {
  previous : Message;
  current : Message
}.

(** [class MessageDelete(Message): pass]: the fields of a Message under
    a run-time type of its own. *)
Record MessageDelete := mkMessageDelete { deleted : Message }.

Record UserTyping := mkUserTyping {
  ut_channel : string;
  ut_user : string
}.

Record FileDeleted := mkFileDeleted {
  file_id : string;
  channel_ids : list string
}.

(** The union [SlackEvent]; the constructor is the run-time type of the
    value. *)
Inductive SlackEvent :=
| EvUserTyping (e : UserTyping)
| EvMessageDelete (e : MessageDelete)
| EvMessageEdit (e : MessageEdit)
| EvMessage (e : Message)
| EvFileDeleted (e : FileDeleted).

Record Profile := mkProfile {
  p_real_name : string;
  email : option string;
  status_text : string
}.

Record User := mkUser {
  u_id : string;
  u_name : string;
  profile : Profile;
  is_admin : bool
}.

Definition real_name (u : User) : string := p_real_name (profile u).

(** ** Exceptions *)

Inductive exn_arg :=
| NoArg
| ArgKey (k : string)
| ArgResponse (r : Response).

Inductive exn :=
| ResponseException (a : exn_arg)
| KeyError (a : exn_arg)
| TypeError
| AttributeError
| LoadError
| BrokenPipeError
| TimeoutError
| OtherError (what : string).

(** The classes caught by [except (BrokenPipeError, TimeoutError)]. *)
Definition transport_failure (e : exn) : bool :=
  match e with
  | BrokenPipeError | TimeoutError => true
  | _ => false
  end.

Inductive result (A : Type) :=
| Return (a : A)
| Raise (e : exn).
Arguments Return {A} a.
Arguments Raise {A} e.

(** ** Decoding *)

(** Modelled from the spec: [typedload.load], the decoding collaborator
    of section 6 ("decode(raw, TargetShape) -> TargetShape, fails when
    raw does not structurally match"), a third-party library that is
    not under src/. A named tuple is decoded from a dictionary that has
    every field without a default, each of the field's type; a field
    with a default may be left out; keys that are no field are ignored.
    [None] stands for the failure. *)
Module Load.

Definition str (j : json) : option string :=
  match j with JStr s => Some s | _ => None end.

Definition boolean (j : json) : option bool :=
  match j with JBool b => Some b | _ => None end.

Definition list_of {A} (f : json → option A) (j : json) : option (list A) :=
  match j with JList l => mapM f l | _ => None end.

Definition set_str (j : json) : option (gset string) :=
  list_to_set <$> list_of str j.

Definition dict_str (j : json) : option (gmap string string) :=
  match j with
  | JDict d =>
      if bool_decide (map_Forall (λ _ v, is_Some (str v)) d)
      then Some (omap str d) else None
  | _ => None
  end.

Definition optional {A} (f : json → option A) (j : json) : option (option A) :=
  match j with JNull => Some None | _ => Some <$> f j end.

(** A field without a default. *)
Definition field {A} (f : json → option A) (k : string)
    (d : gmap string json) : option A :=
  d !! k ≫= f.

(** A field with a default. *)
Definition field_default {A} (f : json → option A) (k : string) (dflt : A)
    (d : gmap string json) : option A :=
  match d !! k with
  | Some j => f j
  | None => Some dflt
  end.

Definition response (j : json) : option Response :=
  match j with
  | JDict d =>
      o ← field boolean "ok" d;
      h ← field dict_str "headers" d;
      Some (mkResponse o h)
  | _ => None
  end.

Definition topic (j : json) : option Topic :=
  match j with
  | JDict d => mkTopic <$> field str "value" d
  | _ => None
  end.

Definition channel (j : json) : option Channel :=
  match j with
  | JDict d =>
      i ← field str "id" d;
      n ← field str "name_normalized" d;
      p ← field topic "purpose" d;
      t ← field topic "topic" d;
      m ← field set_str "members" d;
      Some (mkChannel i n p t m)
  | _ => None
  end.

Definition channel_list : json → option (list Channel) := list_of channel.

Definition message (j : json) : option Message :=
  match j with
  | JDict d =>
      c ← field str "channel" d;
      u ← field str "user" d;
      t ← field str "text" d;
      Some (mkMessage c u t)
  | _ => None
  end.

Definition message_delete (j : json) : option MessageDelete :=
  mkMessageDelete <$> message j.

Definition user_typing (j : json) : option UserTyping :=
  match j with
  | JDict d =>
      c ← field str "channel" d;
      u ← field str "user" d;
      Some (mkUserTyping c u)
  | _ => None
  end.

Definition file_deleted (j : json) : option FileDeleted :=
  match j with
  | JDict d =>
      f ← field str "file_id" d;
      c ← field_default (list_of str) "channel_ids" [] d;
      Some (mkFileDeleted f c)
  | _ => None
  end.

Definition profile (j : json) : option Profile :=
  match j with
  | JDict d =>
      r ← field_default str "real_name" "noname" d;
      e ← field_default (optional str) "email" None d;
      s ← field_default str "status_text" "" d;
      Some (mkProfile r e s)
  | _ => None
  end.

Definition user (j : json) : option User :=
  match j with
  | JDict d =>
      i ← field str "id" d;
      n ← field str "name" d;
      p ← field profile "profile" d;
      a ← field_default boolean "is_admin" false d;
      Some (mkUser i n p a)
  | _ => None
  end.

End Load.

(** ** The transport

    [SlackClient] is outside the repository. Its three entry points act
    on a connection state [T] that the gateway never inspects:
    [api_call method kwargs], [rtm_connect with_team_state] (false when
    the handshake failed) and [rtm_read] (the envelopes received, or an
    exception). As in section 6 of the specification, [api_call] and
    [rtm_connect] give a plain result: only a read raises. *)
Class Transport (T : Type) := {
  api_call : string → gmap string json → T → json * T;
  rtm_connect : bool → T → bool * T;
  rtm_read : T → result (list json) * T
}.

(** What an observer outside the gateway sees, in order: the calls made
    on the transport, the values handed to the consumer of the event
    sequence, and the diagnostic prints. *)
Inductive Action :=
| ApiCall (method : string) (kwargs : gmap string json)
| RtmConnect
| RtmRead
| Yielded (v : option SlackEvent)
| Printed (event : json).

Definition is_api_call (method : string) (a : Action) : bool :=
  match a with
  | ApiCall m _ => String.eqb m method
  | _ => false
  end.

(** How many times [method] was called on the transport. *)
Definition api_calls (method : string) (tr : list Action) : nat :=
  length (filter (λ a, is_api_call method a = true) tr).

(** ** The instance *)

(** The state behind [self]: the client, the user table, and the three
    [lru_cache] tables (most recently used entry first). One instance
    is modelled, so the instance is left out of the keys: the table of
    [channels] is keyed by the instance alone, hence the [unit] key. *)
Record Slack (T : Type) := mkSlack {
  client : T;
  _usercache : gmap string User;
  channels_cache : list (unit * list Channel);
  get_channel_cache : list (string * Channel);
  get_channel_by_name_cache : list (string * Channel);
  trace : list Action
}.
Arguments mkSlack {T}.
Arguments client {T}.
Arguments _usercache {T}.
Arguments channels_cache {T}.
Arguments get_channel_cache {T}.
Arguments get_channel_by_name_cache {T}.
Arguments trace {T}.

(** [Slack.__init__] once the token is read: empty tables. *)
Definition init {T} (c : T) : Slack T :=
  mkSlack c ∅ [] [] [] [].

Definition M (T A : Type) : Type := Slack T → result A * Slack T.

Section Gateway.
Context {T : Type} `{Transport T}.

Definition ret {A} (a : A) : M T A := λ s, (Return a, s).

Definition raise {A} (e : exn) : M T A := λ s, (Raise e, s).

Definition bind {A B} (m : M T A) (k : A → M T B) : M T B := λ s,
  match m s with
  | (Return a, s') => k a s'
  | (Raise e, s') => (Raise e, s')
  end.

Local Notation "x <- m ;; k" := (bind m (λ x, k))
  (at level 100, m at next level, right associativity).

Definition set_client (c : T) (s : Slack T) : Slack T :=
  mkSlack c (_usercache s) (channels_cache s) (get_channel_cache s)
    (get_channel_by_name_cache s) (trace s).

Definition set_usercache (u : gmap string User) (s : Slack T) : Slack T :=
  mkSlack (client s) u (channels_cache s) (get_channel_cache s)
    (get_channel_by_name_cache s) (trace s).

Definition set_channels_cache (c : list (unit * list Channel))
    (s : Slack T) : Slack T :=
  mkSlack (client s) (_usercache s) c (get_channel_cache s)
    (get_channel_by_name_cache s) (trace s).

Definition set_get_channel_cache (c : list (string * Channel))
    (s : Slack T) : Slack T :=
  mkSlack (client s) (_usercache s) (channels_cache s) c
    (get_channel_by_name_cache s) (trace s).

Definition set_get_channel_by_name_cache (c : list (string * Channel))
    (s : Slack T) : Slack T :=
  mkSlack (client s) (_usercache s) (channels_cache s) (get_channel_cache s)
    c (trace s).

Definition record (a : Action) (s : Slack T) : Slack T :=
  mkSlack (client s) (_usercache s) (channels_cache s) (get_channel_cache s)
    (get_channel_by_name_cache s) (trace s ++ [a]).

(** [self.client.api_call(method, **kwargs)] *)
Definition do_api_call (method : string) (kwargs : gmap string json)
    : M T json := λ s,
  let '(r, c) := api_call method kwargs (client s) in
  (Return r, record (ApiCall method kwargs) (set_client c s)).

(** [self.client.rtm_connect(with_team_state=False)] *)
Definition do_rtm_connect (s : Slack T) : bool * Slack T :=
  let '(b, c) := rtm_connect false (client s) in
  (b, record RtmConnect (set_client c s)).

(** [self.client.rtm_read()] *)
Definition do_rtm_read : M T (list json) := λ s,
  let '(r, c) := rtm_read (client s) in
  (r, record RtmRead (set_client c s)).

(** [load(raw, Shape)] *)
Definition load {A} (f : json → option A) (raw : json) : M T A :=
  match f raw with
  | Some a => ret a
  | None => raise LoadError
  end.

(** [raw[key]] *)
Definition subscript (raw : json) (key : string) : M T json :=
  match raw with
  | JDict d =>
      match d !! key with
      | Some v => ret v
      | None => raise (KeyError (ArgKey key))
      end
  | _ => raise TypeError
  end.

(** *** [functools.lru_cache]

    The default [maxsize] of 128; a hit moves the entry to the front,
    a computed value is stored in front and the oldest entry leaves
    when the table is full; a call that raises stores nothing. *)
Definition lru_maxsize : nat := 128.

Definition lru_find {K V} `{EqDecision K} (k : K) (c : list (K * V))
    : option V :=
  snd <$> List.find (λ kv, bool_decide (kv.1 = k)) c.

Definition lru_hit {K V} `{EqDecision K} (k : K) (v : V) (c : list (K * V))
    : list (K * V) :=
  (k, v) :: List.filter (λ kv, negb (bool_decide (kv.1 = k))) c.

Definition lru_store {K V} (k : K) (v : V) (c : list (K * V))
    : list (K * V) :=
  take lru_maxsize ((k, v) :: c).

Definition lru_cache {K V} `{EqDecision K}
    (table : Slack T → list (K * V))
    (set_table : list (K * V) → Slack T → Slack T)
    (body : K → M T V) (k : K) : M T V := λ s,
  match lru_find k (table s) with
  | Some v => (Return v, set_table (lru_hit k v (table s)) s)
  | None =>
      match body k s with
      | (Return v, s') => (Return v, set_table (lru_store k v (table s')) s')
      | (Raise e, s') => (Raise e, s')
      end
  end.

(** *** [Slack.channels] *)

Definition exclude_archived : gmap string json :=
  {[ "exclude_archived" := JNum 1 ]}.

(** One half of the body: call, decode the response, and on [ok]
    decode the collection under [key]. *)
Definition fetch_collection (method key : string) : M T (list Channel) :=
  r <- do_api_call method exclude_archived ;;
  response <- load Load.response r ;;
  if ok response then
    raw <- subscript r key ;;
    load Load.channel_list raw
  else raise (ResponseException (ArgResponse response)).

Definition channels_body (_ : unit) : M T (list Channel) :=
  cs <- fetch_collection "channels.list" "channels" ;;
  gs <- fetch_collection "groups.list" "groups" ;;
  ret (cs ++ gs).

Definition channels : M T (list Channel) :=
  lru_cache channels_cache set_channels_cache channels_body ().

(** *** [Slack.get_channel] and [Slack.get_channel_by_name] *)

(** [for c in l: if key(c) == x: return c] and [raise KeyError()]
    after the loop. *)
Fixpoint scan (key : Channel → string) (x : string) (l : list Channel)
    : M T Channel :=
  match l with
  | [] => raise (KeyError NoArg)
  | c :: l' => if String.eqb (key c) x then ret c else scan key x l'
  end.

Definition get_channel_body (id_ : string) : M T Channel :=
  l <- channels ;;
  scan id id_ l.

Definition get_channel : string → M T Channel :=
  lru_cache get_channel_cache set_get_channel_cache get_channel_body.

Definition get_channel_by_name_body (name_ : string) : M T Channel :=
  l <- channels ;;
  scan name name_ l.

Definition get_channel_by_name : string → M T Channel :=
  lru_cache get_channel_by_name_cache set_get_channel_by_name_cache
    get_channel_by_name_body.

(** *** [Slack.get_user] *)

Definition get_user (id_ : string) : M T User := λ s,
  match _usercache s !! id_ with
  | Some u => (Return u, s)
  | None =>
      (r <- do_api_call "users.info" {[ "user" := JStr id_ ]} ;;
       response <- load Load.response r ;;
       if ok response then
         raw <- subscript r "user" ;;
         u <- load Load.user raw ;;
         λ s', (Return u, set_usercache (<[id_ := u]> (_usercache s')) s')
       else raise (KeyError (ArgResponse response))) s
  end.

(** *** [Slack.send_message] *)

Definition send_message (channel_id msg : string) : M T unit :=
  r <- do_api_call "chat.postMessage"
         (<["channel" := JStr channel_id]>
            (<["text" := JStr msg]> {[ "as_user" := JBool true ]})) ;;
  response <- load Load.response r ;;
  if ok response then ret ()
  else raise (ResponseException (ArgResponse response)).

(** *** [Slack.events_iter] *)

(** What the body of the [for] loop does with one envelope: hand a
    typed event to the consumer ([yield]) or go on to the next one. *)
Inductive Handled :=
| Emit (e : SlackEvent)
| Quiet.

(** [event.get(key)] *)
Definition get_ (event : json) (key : string) : M T (option json) :=
  match event with
  | JDict d => ret (d !! key)
  | _ => raise AttributeError
  end.

(** [event[outer][inner] = v], for [v] already evaluated: the nested
    dictionary is changed in place, so the envelope read afterwards
    holds the new entry. *)
Definition setitem_nested (event : json) (outer inner : string) (v : json)
    : M T json :=
  nested <- subscript event outer ;;
  match nested, event with
  | JDict dn, JDict d => ret (JDict (<[outer := JDict (<[inner := v]> dn)]> d))
  | _, _ => raise TypeError
  end.

Definition useless (t : option json) : bool :=
  eq_str t "channel_marked" || eq_str t "group_marked" || eq_str t "hello".

Definition handle_event (event : json) : M T Handled :=
  t <- get_ event "type" ;;
  subt <- get_ event "subtype" ;;
  if eq_str t "message" && negb (truthy_opt subt) then
    m <- load Load.message event ;;
    ret (Emit (EvMessage m))
  else if eq_str t "message" && eq_str subt "message_changed" then
    c <- subscript event "channel" ;;
    event1 <- setitem_nested event "message" "channel" c ;;
    c' <- subscript event1 "channel" ;;
    event2 <- setitem_nested event1 "previous_message" "channel" c' ;;
    raw_previous <- subscript event2 "previous_message" ;;
    p <- load Load.message raw_previous ;;
    raw_current <- subscript event2 "message" ;;
    m <- load Load.message raw_current ;;
    ret (Emit (EvMessageEdit (mkMessageEdit p m)))
  else if eq_str t "message" && eq_str subt "message_deleted" then
    c <- subscript event "channel" ;;
    event1 <- setitem_nested event "previous_message" "channel" c ;;
    raw_previous <- subscript event1 "previous_message" ;;
    m <- load Load.message_delete raw_previous ;;
    ret (Emit (EvMessageDelete m))
  else if eq_str t "user_typing" then
    u <- load Load.user_typing event ;;
    ret (Emit (EvUserTyping u))
  else if eq_str t "user_change" then
    raw_user <- subscript event "user" ;;
    u <- load Load.user raw_user ;;
    λ s, match _usercache s !! u_id u with
         | Some _ => (Return Quiet, set_usercache (delete (u_id u) (_usercache s)) s)
         | None => (Return Quiet, s)
         end
  else if eq_str t "file_deleted" then
    f <- load Load.file_deleted event ;;
    ret (Emit (EvFileDeleted f))
  else if negb (hashable t) then raise TypeError
  else if useless t then ret Quiet
  else λ s, (Return Quiet, record (Printed event) s).

(** Where a generator object stands between two calls of [next]:
    not started; suspended at a [yield] inside the [for] loop, with
    the envelopes still to come; suspended at [yield None]; over
    (returned or raised). *)
Inductive GenState :=
| Created
| Suspended (rest : list json)
| AtMarker
| Finished.

(** What one call of [next] gives its caller. *)
Inductive Outcome :=
| Yield (v : option SlackEvent)
| StopIteration
| Raises (e : exn).

(** The [for] loop, entered or resumed with [events] to go, followed
    by [yield None]. *)
Fixpoint for_loop (events : list json) (s : Slack T)
    : Outcome * GenState * Slack T :=
  match events with
  | [] => (Yield None, AtMarker, record (Yielded None) s)
  | event :: rest =>
      match handle_event event s with
      | (Return (Emit e), s') =>
          (Yield (Some e), Suspended rest, record (Yielded (Some e)) s')
      | (Return Quiet, s') => for_loop rest s'
      | (Raise e, s') => (Raises e, Finished, s')
      end
  end.

(** The [try] statement at the head of the [while] loop. *)
Definition read_events : M T (list json) := λ s,
  match do_rtm_read s with
  | (Return events, s') => (Return events, s')
  | (Raise e, s') =>
      if transport_failure e then
        match do_rtm_connect s' with
        | (true, s'') => (Return [], s'')
        | (false, s'') => (Raise e, s'')
        end
      else (Raise e, s')
  end.

(** One turn of [while True], from its head to the next [yield]. *)
Definition while_loop (s : Slack T) : Outcome * GenState * Slack T :=
  match read_events s with
  | (Return events, s') => for_loop events s'
  | (Raise e, s') => (Raises e, Finished, s')
  end.

(** [self.events_iter()]: calling the generator function runs none of
    its body, it gives a generator object that has not started. *)
Definition events_iter : GenState := Created.

(** [next(gen)] for a generator object [gen] of [events_iter]. *)
Definition next_ (g : GenState) (s : Slack T)
    : Outcome * GenState * Slack T :=
  match g with
  | Created =>
      match do_rtm_connect s with
      | (true, s') => while_loop s'
      | (false, s') => (StopIteration, Finished, s')
      end
  | Suspended rest => for_loop rest s
  | AtMarker => while_loop s
  | Finished => (StopIteration, Finished, s)
  end.

(** A consumer that calls [next] [n] times. *)
Fixpoint consume (n : nat) (g : GenState) (s : Slack T)
    : list Outcome * GenState * Slack T :=
  match n with
  | 0 => ([], g, s)
  | S n' =>
      let '(o, g', s') := next_ g s in
      let '(os, g'', s'') := consume n' g' s' in
      (o :: os, g'', s'')
  end.

(** [n] calls of a method in a row, keeping what each one gave. *)
Fixpoint repeat_call {A} (n : nat) (m : M T A) (s : Slack T)
    : list (result A) * Slack T :=
  match n with
  | 0 => ([], s)
  | S n' =>
      let '(r, s') := m s in
      let '(rs, s'') := repeat_call n' m s' in
      (r :: rs, s'')
  end.

(** *** Notions used to state the properties *)

(** The collection a response carries under [key], decoded: what
    [load(r[key], List[Channel])] gives when it gives something. *)
Definition collection (key : string) (r : json) : option (list Channel) :=
  match r with
  | JDict d => d !! key ≫= Load.channel_list
  | _ => None
  end.

(** Every entry of a lookup table is a channel of [l] filed under its
    own key. *)
Definition keyed_by (key : Channel → string) (l : list Channel)
    (c : list (string * Channel)) : Prop :=
  Forall (λ kc, key kc.2 = kc.1 ∧ kc.2 ∈ l) c.

(** The three memoisation tables agree: [channels] holds at most one
    listing, and the lookup tables hold only channels of that listing. *)
Definition coherent (s : Slack T) : Prop :=
  match channels_cache s with
  | [] => get_channel_cache s = [] ∧ get_channel_by_name_cache s = []
  | [(_, l)] =>
      keyed_by id l (get_channel_cache s)
      ∧ keyed_by name l (get_channel_by_name_cache s)
  | _ => False
  end.

(** The life of an instance from the state [s0] on: any number of
    calls of its public methods and of [next] on its event sequences,
    in any order. *)
Inductive evolves (s0 : Slack T) : Slack T → Prop :=
| evolves_refl : evolves s0 s0
| evolves_channels s : evolves s0 s → evolves s0 (channels s).2
| evolves_get_channel s i : evolves s0 s → evolves s0 (get_channel i s).2
| evolves_get_channel_by_name s n :
    evolves s0 s → evolves s0 (get_channel_by_name n s).2
| evolves_get_user s i : evolves s0 s → evolves s0 (get_user i s).2
| evolves_send_message s c m :
    evolves s0 s → evolves s0 (send_message c m s).2
| evolves_next g s : evolves s0 s → evolves s0 (next_ g s).2.

(** The states an instance can be in: those a fresh one evolves to. *)
Definition reachable (s : Slack T) : Prop := ∃ c, evolves (init c) s.

(** The memoisation tables are the same in both states. *)
Definition same_tables (s s' : Slack T) : Prop :=
  channels_cache s' = channels_cache s
  ∧ get_channel_cache s' = get_channel_cache s
  ∧ get_channel_by_name_cache s' = get_channel_by_name_cache s.

Definition is_print (a : Action) : Prop := ∃ e, a = Printed e.

(** What handling one envelope may do to the instance: nothing to the
    client or to the memoised tables, at most prints on the trace. *)
Definition quiet_step (s s' : Slack T) : Prop :=
  client s' = client s ∧ same_tables s s'
  ∧ ∃ pr, trace s' = trace s ++ pr ∧ Forall is_print pr.

Definition frames {A} (R : Slack T → Slack T → Prop) (m : M T A) : Prop :=
  ∀ s r s', m s = (r, s') → R s s'.

(** What a read cycle leaves on the trace between its read and its
    marker: diagnostic prints and typed events handed over. *)
Definition cycle_body (a : Action) : bool :=
  match a with
  | Printed _ | Yielded (Some _) => true
  | _ => false
  end.

(** A typed event, as opposed to the marker, the end or an exception. *)
Definition typed (o : Outcome) : Prop := ∃ e, o = Yield (Some e).

(** The behaviour section 4.3 of the specification words for a failed
    first handshake: the failure reaches the consumer as an exception. *)
Definition raises_on_failed_handshake (s : Slack T) : Prop :=
  ∀ c, rtm_connect false (client s) = (false, c) →
    ∃ e, (next_ events_iter s).1.1 = Raises e.

(** What the consumer is owed for a batch, read off [handle_event]
    envelope by envelope and in order: the event of every envelope that
    has one, nothing for an envelope handled in silence, and then the
    marker; or, in place of the rest, the exception of the first
    envelope whose handling raises. With it, where the generator then
    stands and the state of the instance. *)
Fixpoint delivered (events : list json) (s : Slack T)
    : list Outcome * GenState * Slack T :=
  match events with
  | [] => ([Yield None], AtMarker, record (Yielded None) s)
  | event :: rest =>
      match handle_event event s with
      | (Return (Emit e), s') =>
          let '(os, g, s'') := delivered rest (record (Yielded (Some e)) s') in
          (Yield (Some e) :: os, g, s'')
      | (Return Quiet, s') => delivered rest s'
      | (Raise e, s') => ([Raises e], Finished, s')
      end
  end.

(** *** Further notions *)

(** The channel the loop of a lookup stops at: the first one of [l]
    filed under [x]. *)
Definition first_match (key : Channel → string) (x : string)
    (l : list Channel) : option Channel :=
  List.find (λ c, String.eqb (key c) x) l.

(** Every entry of a lookup table is what the loop would find in [l]
    for its key. *)
Definition faithful (key : Channel → string) (l : list Channel)
    (c : list (string * Channel)) : Prop :=
  Forall (λ kc, first_match key kc.1 l = Some kc.2) c.

(** The lookup tables answer as the loops over the stored listing
    would. *)
Definition memo_sound (s : Slack T) : Prop :=
  match channels_cache s with
  | [] => get_channel_cache s = [] ∧ get_channel_by_name_cache s = []
  | [(_, l)] =>
      faithful id l (get_channel_cache s)
      ∧ faithful name l (get_channel_by_name_cache s)
  | _ => False
  end.

(** The user a [users.info] response carries, decoded: what
    [load(r['user'], User)] gives when it gives something. *)
Definition user_of (r : json) : option User :=
  match r with
  | JDict d => d !! "user" ≫= Load.user
  | _ => None
  end.

(** The keyword arguments of the [chat.postMessage] call. *)
Definition post_kwargs (channel_id msg : string) : gmap string json :=
  <["channel" := JStr channel_id]>
    (<["text" := JStr msg]> {[ "as_user" := JBool true ]}).

(** A method call that leaves the instance as it found it. *)
Definition pure {A} (m : M T A) : Prop :=
  ∀ s r s', m s = (r, s') → s' = s.

(** Every run of [m] relates the state before, the result and the state
    after by [R]. *)
Definition frames_res {A} (R : Slack T → result A → Slack T → Prop)
    (m : M T A) : Prop :=
  ∀ s r s', m s = (r, s') → R s r s'.

(** All that handling the envelope [event] can do to the instance:
    nothing, one diagnostic print of the envelope, or the eviction of
    one user that the table held. *)
Definition envelope_effect (event : json) (s s' : Slack T) : Prop :=
  s' = s
  ∨ s' = record (Printed event) s
  ∨ ∃ k, is_Some (_usercache s !! k)
         ∧ s' = set_usercache (delete k (_usercache s)) s.

Definition is_api (a : Action) : bool :=
  match a with
  | ApiCall _ _ => true
  | _ => false
  end.

(** What the event sequence may do to the instance: nothing to the
    memoisation tables, only removals from the user table, and no call
    of the web API. *)
Definition stream_frame (s s' : Slack T) : Prop :=
  same_tables s s'
  ∧ _usercache s' ⊆ _usercache s
  ∧ ∃ ext, trace s' = trace s ++ ext ∧ Forall (λ a, is_api a = false) ext.

Definition is_read (a : Action) : bool :=
  match a with
  | RtmRead => true
  | _ => false
  end.

Definition is_marker (a : Action) : bool :=
  match a with
  | Yielded None => true
  | _ => false
  end.

(** How many actions of a trace satisfy [p]. *)
Fixpoint count (p : Action → bool) (tr : list Action) : nat :=
  match tr with
  | [] => 0
  | a :: tr' => (if p a then 1 else 0) + count p tr'
  end.

(** Reads and markers alternate: at every read of the trace, as many
    markers as reads came before it, and what came just before it is a
    marker, or the handshake that opens the trace. *)
Definition alternating (tr : list Action) : Prop :=
  ∀ l1 l2, tr = l1 ++ RtmRead :: l2 →
    count is_marker l1 = count is_read l1
    ∧ (l1 = [RtmConnect] ∨ ∃ l0, l1 = l0 ++ [Yielded None]).

(** The trace of a generator that may read next. *)
Definition ready (tr : list Action) : Prop :=
  count is_marker tr = count is_read tr
  ∧ (tr = [RtmConnect] ∨ ∃ l0, tr = l0 ++ [Yielded None]).

(** What the trace a generator has written so far looks like, by where
    the generator stands. *)
Definition gen_trace (g : GenState) (tr : list Action) : Prop :=
  match g with
  | Created => tr = []
  | AtMarker => alternating tr ∧ ready tr
  | Suspended _ =>
      alternating tr ∧ count is_read tr = S (count is_marker tr)
  | Finished => alternating tr
  end.

End Gateway.

(** ** A scripted transport

    A test double: the replies of the three entry points are fixed in
    advance and served in order. When a script runs out, [api_call]
    answers [null], the handshake fails and a read finds the pipe
    broken. *)
Record Script := mkScript {
  api_replies : list json;
  connect_replies : list bool;
  read_replies : list (result (list json))
}.

Global Instance scripted : Transport Script := {|
  api_call _ _ c :=
    match api_replies c with
    | r :: rs => (r, mkScript rs (connect_replies c) (read_replies c))
    | [] => (JNull, c)
    end;
  rtm_connect _ c :=
    match connect_replies c with
    | b :: bs => (b, mkScript (api_replies c) bs (read_replies c))
    | [] => (false, c)
    end;
  rtm_read c :=
    match read_replies c with
    | r :: rs => (r, mkScript (api_replies c) (connect_replies c) rs)
    | [] => (Raise BrokenPipeError, c)
    end
|}.

(** ** Sample payloads and instances *)
Module Sample.

Definition topic_of (v : string) : json := JDict {[ "value" := JStr v ]}.

Definition channel_of (i n t p : string) : json :=
  JDict (<["id" := JStr i]> (<["name_normalized" := JStr n]>
        (<["topic" := topic_of t]> (<["purpose" := topic_of p]>
        {[ "members" := JList [JStr "U1"; JStr "U2"] ]})))).

Definition reply (key : string) (l : list json) : json :=
  JDict (<["ok" := JBool true]> (<["headers" := JDict ∅]> {[ key := JList l ]})).

Definition refusal : json :=
  JDict (<["ok" := JBool false]> {[ "headers" := JDict ∅ ]}).

Definition general : Channel :=
  mkChannel "C1" "general" (mkTopic "talk") (mkTopic "") (list_to_set ["U1"; "U2"]).

Definition secret : Channel :=
  mkChannel "G1" "secret" (mkTopic "") (mkTopic "plans") (list_to_set ["U1"; "U2"]).

Definition silent : Channel :=
  mkChannel "C3" "silent" (mkTopic "") (mkTopic "") ∅.

Definition channels_reply : json := reply "channels" [channel_of "C1" "general" "" "talk"].

Definition groups_reply : json := reply "groups" [channel_of "G1" "secret" "plans" ""].

(** A fresh instance whose two listings both succeed. *)
Definition fresh : Slack Script :=
  init (mkScript [channels_reply; groups_reply] [] []).

(** A fresh instance whose second listing is refused, once. *)
Definition refused : Slack Script :=
  init (mkScript [channels_reply; refusal; channels_reply; groups_reply] [] []).

Definition edited : gmap string json :=
  <["type" := JStr "message"]> (<["subtype" := JStr "message_changed"]>
  (<["channel" := JStr "C1"]>
  (<["message" := JDict (<["user" := JStr "U1"]> {[ "text" := JStr "new" ]})]>
  {[ "previous_message" := JDict (<["user" := JStr "U1"]> {[ "text" := JStr "old" ]}) ]}))).

Definition removed : gmap string json :=
  <["type" := JStr "message"]> (<["subtype" := JStr "message_deleted"]>
  (<["channel" := JStr "C2"]>
  {[ "previous_message" := JDict (<["user" := JStr "U2"]> {[ "text" := JStr "gone" ]}) ]})).

Definition user_raw : json :=
  JDict (<["id" := JStr "U1"]> (<["name" := JStr "ann"]> {[ "profile" := JDict ∅ ]})).

Definition ann : User := mkUser "U1" "ann" (mkProfile "noname" None "") false.

Definition changed : gmap string json :=
  <["type" := JStr "user_change"]> {[ "user" := user_raw ]}.

Definition hello : json := JDict {[ "type" := JStr "hello" ]}.

Definition pong : json := JDict {[ "type" := JStr "pong" ]}.

(** An instance that has [ann] in its user table. *)
Definition knows_ann : Slack Script :=
  mkSlack (mkScript [] [] []) {[ "U1" := ann ]} [] [] [] [].

(** A stream past its handshake whose next read gives three envelopes. *)
Definition streaming : Slack Script :=
  init (mkScript [] [] [Return [hello; JDict edited; pong]]).

(** A stream whose next read times out and whose handshake then
    succeeds; the read after that gives one envelope. *)
Definition recovering : Slack Script :=
  init (mkScript [] [true] [Raise TimeoutError; Return [JDict removed]]).

(** A stream whose next read finds the pipe broken and whose handshake
    then fails. *)
Definition lost : Slack Script :=
  init (mkScript [] [false] [Raise BrokenPipeError]).

(** An instance whose first handshake fails. *)
Definition unreachable : Slack Script :=
  init (mkScript [] [false] []).

Definition said : gmap string json :=
  <["type" := JStr "message"]> (<["channel" := JStr "C1"]>
  (<["user" := JStr "U1"]> (<["text" := JStr "hi"]> {[ "ts" := JStr "1.0" ]}))).

Definition typing : gmap string json :=
  <["type" := JStr "user_typing"]> (<["channel" := JStr "C1"]>
  {[ "user" := JStr "U2" ]}).

Definition file_gone : gmap string json :=
  <["type" := JStr "file_deleted"]> {[ "file_id" := JStr "F1" ]}.

Definition file_gone_from : gmap string json :=
  <["type" := JStr "file_deleted"]> (<["file_id" := JStr "F1"]>
  {[ "channel_ids" := JList (JStr <$> ["C1"; "G1"]) ]}).

Definition hello_fields : gmap string json := {[ "type" := JStr "hello" ]}.

Definition pong_fields : gmap string json := {[ "type" := JStr "pong" ]}.

Definition bot_said : gmap string json :=
  <["type" := JStr "message"]> (<["subtype" := JStr "bot_message"]>
  (<["channel" := JStr "C1"]> {[ "text" := JStr "beep" ]})).

Definition odd_kind : gmap string json := {[ "type" := JList [JStr "message"] ]}.

Definition edit_without_channel : gmap string json :=
  <["type" := JStr "message"]> {[ "subtype" := JStr "message_changed" ]}.

Definition user_reply : json :=
  JDict (<["ok" := JBool true]> (<["headers" := JDict ∅]> {[ "user" := user_raw ]})).

Definition bare_ok : gmap string json :=
  <["ok" := JBool true]> {[ "headers" := JDict ∅ ]}.

(** A fresh instance whose [users.info] call succeeds. *)
Definition asks_ann : Slack Script := init (mkScript [user_reply] [] []).

(** A fresh instance whose every call is refused. *)
Definition shut_out : Slack Script := init (mkScript [refusal; refusal] [] []).

(** A fresh instance whose first listing lacks its collection. *)
Definition short_reply : Slack Script := init (mkScript [JDict bare_ok] [] []).

(** A fresh instance with a stream of two batches, the second after a
    timeout and a new handshake. *)
Definition two_batches : Slack Script :=
  init (mkScript [] [true; true]
          [Return [hello; JDict said; pong]; Raise TimeoutError;
           Return [JDict changed; JDict typing]]).

(** A stream whose next read fails for another reason than a broken
    pipe or a timeout. *)
Definition reset : Slack Script :=
  init (mkScript [] [true] [Raise (OtherError "ConnectionResetError")]).

End Sample.

(** * Properties *)

Section Properties.
Context {T : Type} `{Transport T}.

(** ** The derived accessor of a channel *)

(** C8. For every channel, [real_topic] is [topic.value] whenever that
    is a non-empty string and [purpose.value] otherwise; when both are
    empty it is the empty string. *)
Theorem real_topic_spec (c : Channel) :
  (value (topic c) ≠ "" → real_topic c = value (topic c)) ∧
  (value (topic c) = "" → real_topic c = value (purpose c)) ∧
  (value (topic c) = "" → value (purpose c) = "" → real_topic c = "").
Proof.
  unfold real_topic.
  destruct (String.eqb_spec (value (topic c)) "") as [E|E]; simpl.
  - split; [done|]. split; [done|]. by intros _ ->.
  - split; [done|]. split; intros; done.
Qed.

(** ** Envelopes that nest the message they are about *)

Ltac dict := repeat first [ rewrite lookup_insert_eq | rewrite lookup_insert_ne by discriminate ].

(** C5. For every envelope of kind [message] and subkind
    [message_changed] with channel id [C], a nested [message] whose
    user and text are [Uc] and [Tn] and a nested [previous_message]
    whose user and text are [Up] and [To] (the claim is the case
    [Uc = Up]): the two assignments put [C] into both nested payloads,
    and the event handed to the consumer is the MessageEdit whose
    [previous] is [Message(C, Up, To)] and whose [current] is
    [Message(C, Uc, Tn)]. *)
Theorem message_changed_edit (s : Slack T) (d dm dp : gmap string json)
    (C Uc Tn Up To : string) (rest : list json) :
  d !! "type" = Some (JStr "message") →
  d !! "subtype" = Some (JStr "message_changed") →
  d !! "channel" = Some (JStr C) →
  d !! "message" = Some (JDict dm) →
  dm !! "user" = Some (JStr Uc) →
  dm !! "text" = Some (JStr Tn) →
  d !! "previous_message" = Some (JDict dp) →
  dp !! "user" = Some (JStr Up) →
  dp !! "text" = Some (JStr To) →
  let d1 := <["message" := JDict (<["channel" := JStr C]> dm)]> d in
  let d2 := <["previous_message" := JDict (<["channel" := JStr C]> dp)]> d1 in
  let edit := mkMessageEdit (mkMessage C Up To) (mkMessage C Uc Tn) in
  setitem_nested (JDict d) "message" "channel" (JStr C) s = (Return (JDict d1), s)
  ∧ setitem_nested (JDict d1) "previous_message" "channel" (JStr C) s
    = (Return (JDict d2), s)
  ∧ handle_event (JDict d) s = (Return (Emit (EvMessageEdit edit)), s)
  ∧ next_ (Suspended (JDict d :: rest)) s
    = (Yield (Some (EvMessageEdit edit)), Suspended rest,
       record (Yielded (Some (EvMessageEdit edit))) s).
Proof.
  intros Ht Hs Hc Hm Hmu Hmt Hp Hpu Hpt d1 d2 edit.
  assert (Hset1 : setitem_nested (JDict d) "message" "channel" (JStr C) s
                  = (Return (JDict d1), s)).
  { unfold setitem_nested, subscript, bind, ret. by rewrite Hm. }
  assert (Hset2 : setitem_nested (JDict d1) "previous_message" "channel" (JStr C) s
                  = (Return (JDict d2), s)).
  { unfold setitem_nested, subscript, bind, ret, d1. dict. by rewrite Hp. }
  assert (Hh : handle_event (JDict d) s = (Return (Emit (EvMessageEdit edit)), s)).
  { unfold handle_event. unfold bind at 1. unfold get_ at 1. cbv [ret].
    unfold bind at 1. unfold get_ at 1. cbv [ret].
    rewrite Ht, Hs. simpl.
    unfold bind at 1. unfold subscript at 1. rewrite Hc. cbv [ret].
    unfold bind at 1. fold d1. rewrite Hset1.
    unfold bind at 1. unfold subscript at 1. unfold d1 at 1. dict. rewrite Hc. cbv [ret].
    unfold bind at 1. rewrite Hset2.
    unfold bind, subscript, load, Load.message, Load.field, d2, d1.
    dict. simpl. dict. rewrite Hpu, Hpt. simpl. cbv [ret]. dict. simpl. dict.
    by rewrite Hmu, Hmt. }
  split; [done|]. split; [done|]. split; [done|]. by simpl; rewrite Hh.
Qed.

(** C6. For every envelope of kind [message] and subkind
    [message_deleted] with channel id [C] and a nested
    [previous_message] whose user and text are [U] and [Tx]: the
    assignment puts [C] into the nested payload, and the event handed to
    the consumer is a MessageDelete with channel [C], user [U] and text
    [Tx], which no live Message is equal to. *)
Theorem message_deleted_delete (s : Slack T) (d dp : gmap string json)
    (C U Tx : string) (rest : list json) :
  d !! "type" = Some (JStr "message") →
  d !! "subtype" = Some (JStr "message_deleted") →
  d !! "channel" = Some (JStr C) →
  d !! "previous_message" = Some (JDict dp) →
  dp !! "user" = Some (JStr U) →
  dp !! "text" = Some (JStr Tx) →
  let event1 := JDict (<["previous_message" := JDict (<["channel" := JStr C]> dp)]> d) in
  let m := mkMessageDelete (mkMessage C U Tx) in
  setitem_nested (JDict d) "previous_message" "channel" (JStr C) s = (Return event1, s)
  ∧ handle_event (JDict d) s = (Return (Emit (EvMessageDelete m)), s)
  ∧ next_ (Suspended (JDict d :: rest)) s
    = (Yield (Some (EvMessageDelete m)), Suspended rest,
       record (Yielded (Some (EvMessageDelete m))) s)
  ∧ channel (deleted m) = C ∧ user (deleted m) = U ∧ text (deleted m) = Tx
  ∧ ∀ live : Message, EvMessageDelete m ≠ EvMessage live.
Proof.
  intros Ht Hs Hc Hp Hpu Hpt event1 m.
  assert (Hset : setitem_nested (JDict d) "previous_message" "channel" (JStr C) s
                 = (Return event1, s)).
  { unfold setitem_nested, subscript, bind, ret. by rewrite Hp. }
  assert (Hh : handle_event (JDict d) s = (Return (Emit (EvMessageDelete m)), s)).
  { unfold handle_event. unfold bind at 1. unfold get_ at 1. cbv [ret].
    unfold bind at 1. unfold get_ at 1. cbv [ret].
    rewrite Ht, Hs. simpl.
    unfold bind at 1. unfold subscript at 1. rewrite Hc. cbv [ret].
    unfold bind at 1. rewrite Hset.
    unfold bind, subscript, load, Load.message_delete, Load.message, Load.field.
    dict. simpl. dict. rewrite Hpu, Hpt. done. }
  split; [done|]. split; [done|]. split; [by simpl; rewrite Hh|]. done.
Qed.

(** ** The user table *)

(** A cached user is returned without touching the transport. *)
Lemma get_user_hit (s : Slack T) (i : string) (u : User) :
  _usercache s !! i = Some u → get_user i s = (Return u, s).
Proof. intros E. unfold get_user. by rewrite E. Qed.

(** A user that is not cached costs exactly one [users.info] call,
    whatever the call answers. *)
Lemma get_user_miss (s : Slack T) (i : string) (r : result User) (s' : Slack T) :
  _usercache s !! i = None →
  get_user i s = (r, s') →
  trace s' = trace s ++ [ApiCall "users.info" {[ "user" := JStr i ]}].
Proof.
  intros E. unfold get_user. rewrite E.
  unfold bind, do_api_call, load, subscript, ret, raise.
  destruct (api_call _ _ _) as [j c].
  destruct (Load.response j) as [resp|]; [|by intros [= <- <-]].
  destruct (ok resp); [|by intros [= <- <-]].
  destruct j as [| | | | |dj]; try by intros [= <- <-].
  destruct (dj !! "user") as [raw|]; [|by intros [= <- <-]].
  destruct (Load.user raw); by intros [= <- <-].
Qed.

(** C7. For every envelope of kind [user_change] whose nested [user]
    decodes to [u]: the envelope is handled without an event for the
    consumer (the loop goes on with the next envelope) and without a
    call on the transport; the user table loses the entry of [u.id];
    when there was none the instance is unchanged; when there was one
    (so that [get_user(u.id)] was answered from the table, without a
    call) the next [get_user(u.id)] makes exactly one [users.info]
    call. *)
Theorem user_change_evicts (s : Slack T) (d : gmap string json) (raw : json) (u : User) :
  d !! "type" = Some (JStr "user_change") →
  d !! "user" = Some raw →
  Load.user raw = Some u →
  ∃ s', handle_event (JDict d) s = (Return Quiet, s')
    ∧ (∀ rest, for_loop (JDict d :: rest) s = for_loop rest s')
    ∧ trace s' = trace s
    ∧ client s' = client s
    ∧ _usercache s' = delete (u_id u) (_usercache s)
    ∧ (_usercache s !! u_id u = None → s' = s)
    ∧ (∀ v, _usercache s !! u_id u = Some v →
         get_user (u_id u) s = (Return v, s)
         ∧ ∀ r s'', get_user (u_id u) s' = (r, s'') →
             trace s'' = trace s'
                         ++ [ApiCall "users.info" {[ "user" := JStr (u_id u) ]}]).
Proof.
  intros Ht Hu Hl.
  assert (Hh : handle_event (JDict d) s =
    match _usercache s !! u_id u with
    | Some _ => (Return Quiet, set_usercache (delete (u_id u) (_usercache s)) s)
    | None => (Return Quiet, s)
    end).
  { unfold handle_event, bind, get_, ret, subscript, load.
    cbn -[Load.user]. rewrite Ht. cbn -[Load.user]. rewrite Hu. cbv [ret]. by rewrite Hl. }
  destruct (_usercache s !! u_id u) as [v|] eqn:E.
  - eexists. split; [exact Hh|]. split.
    { intros rest. simpl. by rewrite Hh. }
    split; [done|]. split; [done|]. split; [done|]. split; [done|].
    intros v' [= <-]. split; [by apply get_user_hit|].
    intros r s''. apply get_user_miss. simpl. apply lookup_delete_eq.
  - exists s. split; [exact Hh|]. split.
    { intros rest. simpl. by rewrite Hh. }
    split; [done|]. split; [done|]. split.
    { symmetry. by apply delete_id. }
    split; [done|]. by intros v.
Qed.

(** ** The channel listing *)

Lemma set_channels_cache_id (s : Slack T) : set_channels_cache (channels_cache s) s = s.
Proof. by destruct s. Qed.

Lemma fetch_collection_ok (s : Slack T) (method key : string) r c resp l :
  api_call method exclude_archived (client s) = (r, c) →
  Load.response r = Some resp →
  ok resp = true →
  collection key r = Some l →
  fetch_collection method key s =
    (Return l, record (ApiCall method exclude_archived) (set_client c s)).
Proof.
  intros Ha Hr Ho Hc.
  unfold fetch_collection, bind, do_api_call, load, subscript.
  rewrite Ha, Hr. cbv [ret]. rewrite Ho.
  destruct r as [| | | | |d]; try done. simpl in Hc.
  destruct (d !! key) as [raw|]; [|done]. simpl in Hc.
  by rewrite Hc.
Qed.

Lemma fetch_collection_not_ok (s : Slack T) (method key : string) r c resp :
  api_call method exclude_archived (client s) = (r, c) →
  Load.response r = Some resp →
  ok resp = false →
  fetch_collection method key s =
    (Raise (ResponseException (ArgResponse resp)),
     record (ApiCall method exclude_archived) (set_client c s)).
Proof.
  intros Ha Hr Ho.
  unfold fetch_collection, bind, do_api_call, load.
  rewrite Ha, Hr. cbv [ret]. by rewrite Ho.
Qed.

(** Whatever it gives, one fetch makes exactly one call and leaves the
    tables alone. *)
Lemma fetch_collection_frame (s : Slack T) (method key : string) res s' :
  fetch_collection method key s = (res, s') →
  trace s' = trace s ++ [ApiCall method exclude_archived]
  ∧ _usercache s' = _usercache s
  ∧ channels_cache s' = channels_cache s
  ∧ get_channel_cache s' = get_channel_cache s
  ∧ get_channel_by_name_cache s' = get_channel_by_name_cache s.
Proof.
  unfold fetch_collection, bind, do_api_call, load, subscript, ret, raise.
  destruct (api_call _ _ _) as [j c].
  destruct (Load.response j) as [resp|]; [|by intros [= <- <-]].
  destruct (ok resp); [|by intros [= <- <-]].
  destruct j as [| | | | |dj]; try by intros [= <- <-].
  destruct (dj !! key) as [raw|]; [|by intros [= <- <-]].
  destruct (Load.channel_list raw); by intros [= <- <-].
Qed.

(** The body of [channels] starts with the [channels.list] call, makes
    both calls when it returns, and leaves the tables alone. *)
Lemma channels_body_frame (s : Slack T) res s' :
  channels_body () s = (res, s') →
  (∃ rest, trace s' = trace s ++ ApiCall "channels.list" exclude_archived :: rest)
  ∧ (∀ l, res = Return l →
       trace s' = trace s ++ [ApiCall "channels.list" exclude_archived;
                              ApiCall "groups.list" exclude_archived])
  ∧ _usercache s' = _usercache s
  ∧ channels_cache s' = channels_cache s
  ∧ get_channel_cache s' = get_channel_cache s
  ∧ get_channel_by_name_cache s' = get_channel_by_name_cache s.
Proof.
  unfold channels_body, bind.
  destruct (fetch_collection "channels.list" "channels" s) as [r1 s1] eqn:E1.
  apply fetch_collection_frame in E1 as (Ht1 & Hu1 & Hc1 & Hg1 & Hn1).
  destruct r1 as [cs|e].
  - destruct (fetch_collection "groups.list" "groups" s1) as [r2 s2] eqn:E2.
    apply fetch_collection_frame in E2 as (Ht2 & Hu2 & Hc2 & Hg2 & Hn2).
    destruct r2 as [gs|e]; intros [= <- <-]; cbv [ret].
    + split; [eexists; rewrite Ht2, Ht1, <- app_assoc; done|].
      split; [intros _ _; by rewrite Ht2, Ht1, <- app_assoc|].
      repeat split; congruence.
    + split; [eexists; rewrite Ht2, Ht1, <- app_assoc; done|].
      split; [done|]. repeat split; congruence.
  - intros [= <- <-]. split; [by exists []|]. split; [done|]. done.
Qed.

(** With an empty table [channels] runs its body and stores what the
    body returns, nothing when the body raises. *)
Lemma channels_miss (s : Slack T) :
  channels_cache s = [] →
  channels s =
    match channels_body () s with
    | (Return l, s') => (Return l, set_channels_cache [((), l)] s')
    | (Raise e, s') => (Raise e, s')
    end.
Proof.
  intros E. unfold channels, lru_cache. rewrite E. simpl.
  destruct (channels_body () s) as [[l|e] s'] eqn:Eb; [|done].
  apply channels_body_frame in Eb as (_ & _ & _ & Hc & _).
  by rewrite Hc, E.
Qed.

(** With a stored listing [channels] returns it and changes nothing. *)
Lemma channels_hit (s : Slack T) (l : list Channel) :
  channels_cache s = [((), l)] → channels s = (Return l, s).
Proof.
  intros E. unfold channels, lru_cache, lru_find, lru_hit. rewrite E. simpl.
  by rewrite <- E, set_channels_cache_id.
Qed.

(** A call that leaves the state as it found it gives the same again,
    any number of times. *)
Lemma repeat_call_fixed {A} (m : M T A) (s : Slack T) (r : result A) (n : nat) :
  m s = (r, s) → repeat_call n m s = (replicate n r, s).
Proof.
  intros E. induction n as [|n IH]; [done|]. simpl. by rewrite E, IH.
Qed.

Lemma channels_first_call (s : Slack T) r1 c1 resp1 cs r2 c2 resp2 gs :
  channels_cache s = [] →
  api_call "channels.list" exclude_archived (client s) = (r1, c1) →
  Load.response r1 = Some resp1 → ok resp1 = true →
  collection "channels" r1 = Some cs →
  api_call "groups.list" exclude_archived c1 = (r2, c2) →
  Load.response r2 = Some resp2 → ok resp2 = true →
  collection "groups" r2 = Some gs →
  ∃ s', channels s = (Return (cs ++ gs), s')
    ∧ channels_cache s' = [((), cs ++ gs)]
    ∧ client s' = c2
    ∧ trace s' = trace s ++ [ApiCall "channels.list" exclude_archived;
                             ApiCall "groups.list" exclude_archived].
Proof.
  intros E Ha1 Hr1 Ho1 Hc1 Ha2 Hr2 Ho2 Hc2.
  rewrite channels_miss by done. unfold channels_body, bind.
  rewrite (fetch_collection_ok _ _ _ _ _ _ _ Ha1 Hr1 Ho1 Hc1).
  rewrite (fetch_collection_ok _ _ _ r2 c2 resp2 gs); try done.
  cbv [ret]. eexists. split; [done|]. simpl. by rewrite <- app_assoc.
Qed.

(** C10. When [channels] fails because the first fetch reports
    [ok = false], or the first succeeds and the second reports
    [ok = false]: the call raises [ResponseException] with that
    response; no table of the instance is changed (nothing is memoised,
    no partial listing is kept); and the next call of [channels] is the
    body run afresh, starting with a [channels.list] call. *)
Theorem channels_failure_not_memoized (s : Slack T) r1 c1 resp1 :
  channels_cache s = [] →
  api_call "channels.list" exclude_archived (client s) = (r1, c1) →
  Load.response r1 = Some resp1 →
  (ok resp1 = false
   ∨ (ok resp1 = true ∧ ∃ cs r2 c2 resp2,
        collection "channels" r1 = Some cs
        ∧ api_call "groups.list" exclude_archived c1 = (r2, c2)
        ∧ Load.response r2 = Some resp2 ∧ ok resp2 = false)) →
  ∃ resp s',
    channels s = (Raise (ResponseException (ArgResponse resp)), s')
    ∧ ok resp = false
    ∧ channels_cache s' = channels_cache s
    ∧ get_channel_cache s' = get_channel_cache s
    ∧ get_channel_by_name_cache s' = get_channel_by_name_cache s
    ∧ _usercache s' = _usercache s
    ∧ channels s' =
        match channels_body () s' with
        | (Return l, s'') => (Return l, set_channels_cache [((), l)] s'')
        | (Raise e, s'') => (Raise e, s'')
        end
    ∧ (∀ res s'', channels s' = (res, s'') →
         ∃ rest, trace s'' = trace s' ++ ApiCall "channels.list" exclude_archived :: rest).
Proof.
  intros E Ha1 Hr1 Hfail.
  assert (Hagain : ∀ s' : Slack T, channels_cache s' = [] →
    ∀ res s'', channels s' = (res, s'') →
      ∃ rest, trace s'' = trace s' ++ ApiCall "channels.list" exclude_archived :: rest).
  { intros s' E' res s''. rewrite channels_miss by done.
    destruct (channels_body () s') as [r0 s0] eqn:Eb.
    apply channels_body_frame in Eb as ((rest & Ht) & _).
    destruct r0; intros [= <- <-]; by exists rest. }
  rewrite channels_miss by done. unfold channels_body, bind.
  destruct Hfail as [Ho1|(Ho1 & cs & r2 & c2 & resp2 & Hc1 & Ha2 & Hr2 & Ho2)].
  - rewrite (fetch_collection_not_ok _ _ _ _ _ _ Ha1 Hr1 Ho1).
    eexists _, _. split; [done|]. split; [done|]. simpl.
    repeat (split; [done|]). split; [by apply channels_miss|].
    apply Hagain. by simpl.
  - rewrite (fetch_collection_ok _ _ _ _ _ _ _ Ha1 Hr1 Ho1 Hc1).
    rewrite (fetch_collection_not_ok _ _ _ r2 c2 resp2); try done.
    eexists _, _. split; [done|]. split; [done|]. simpl.
    repeat (split; [done|]). split; [by apply channels_miss|].
    apply Hagain. by simpl.
Qed.

(** ** The event sequence *)

Lemma quiet_refl (s : Slack T) : quiet_step s s.
Proof.
  split; [done|]. split; [done|]. exists []. by rewrite app_nil_r.
Qed.

Lemma quiet_trans (s1 s2 s3 : Slack T) :
  quiet_step s1 s2 → quiet_step s2 s3 → quiet_step s1 s3.
Proof.
  intros (Hc & (H1 & H2 & H3) & pr & Ht & Hp) (Hc' & (H1' & H2' & H3') & pr' & Ht' & Hp').
  split; [congruence|]. split; [repeat split; congruence|].
  exists (pr ++ pr'). split; [by rewrite Ht', Ht, app_assoc|].
  by apply Forall_app.
Qed.

Lemma frames_ret {A} (a : A) : frames (T:=T) quiet_step (ret a).
Proof. intros s r s' [= <- <-]. apply quiet_refl. Qed.

Lemma frames_raise {A} (e : exn) : frames (T:=T) quiet_step (@raise T A e).
Proof. intros s r s' [= <- <-]. apply quiet_refl. Qed.

Lemma frames_bind {A B} (m : M T A) (k : A → M T B) :
  frames (T:=T) quiet_step m → (∀ a, frames (T:=T) quiet_step (k a)) →
  frames (T:=T) quiet_step (bind m k).
Proof.
  intros Hm Hk s r s'. unfold bind.
  destruct (m s) as [[a|e] s1] eqn:E.
  - intros Hka. eapply quiet_trans; [by eapply Hm|by eapply Hk].
  - intros [= <- <-]. by eapply Hm.
Qed.

Lemma frames_load {A} (f : json → option A) (raw : json) :
  frames (T:=T) quiet_step (load f raw).
Proof. unfold load. destruct (f raw); [apply frames_ret|apply frames_raise]. Qed.

Lemma frames_subscript (raw : json) (key : string) :
  frames (T:=T) quiet_step (subscript raw key).
Proof.
  unfold subscript. destruct raw; try apply frames_raise.
  destruct (d !! key); [apply frames_ret|apply frames_raise].
Qed.

Lemma frames_get (event : json) (key : string) :
  frames (T:=T) quiet_step (get_ event key).
Proof. unfold get_. destruct event; try apply frames_raise. apply frames_ret. Qed.

Lemma frames_setitem_nested (event : json) (outer inner : string) (v : json) :
  frames (T:=T) quiet_step (setitem_nested event outer inner v).
Proof.
  unfold setitem_nested. apply frames_bind; [apply frames_subscript|].
  intros nested. destruct nested, event; try apply frames_raise. apply frames_ret.
Qed.

(** Handling an envelope neither reads nor connects, and leaves the
    memoised tables alone. *)
Lemma frames_handle_event (event : json) : frames (T:=T) quiet_step (handle_event event).
Proof.
  unfold handle_event.
  repeat first
    [ apply frames_get | apply frames_subscript | apply frames_load
    | apply frames_setitem_nested | apply frames_ret | apply frames_raise
    | apply frames_bind; [|intros ?]
    | match goal with |- frames _ (if ?b then _ else _) => destruct b end ].
  - intros s r s'. destruct (_usercache s !! _); intros [= <- <-].
    + split; [done|]. split; [done|]. exists []. simpl. by rewrite app_nil_r.
    + apply quiet_refl.
  - intros s r s' [= <- <-]. split; [done|]. split; [done|].
    exists [Printed event]. split; [done|]. apply Forall_singleton. by eexists.
Qed.

Lemma is_print_cycle_body (pr : list Action) :
  Forall is_print pr → Forall (λ a, cycle_body a = true) pr.
Proof. intros Hp. eapply Forall_impl; [exact Hp|]. by intros a [e ->]. Qed.

(** After a successful first handshake the generator is at the head of
    the loop, as it is after a marker. *)
Lemma first_next_enters_loop (s : Slack T) (c : T) :
  rtm_connect false (client s) = (true, c) →
  next_ events_iter s = next_ AtMarker (record RtmConnect (set_client c s)).
Proof. intros Hc. simpl. unfold do_rtm_connect. by rewrite Hc. Qed.

(** One resumption of the [for] loop: some prints, and then the marker
    at the end of the batch, or a typed event with the envelopes after
    it still to come, or the exception of an envelope. *)
Lemma for_loop_spec (events : list json) (s : Slack T) o g' s' :
  for_loop events s = (o, g', s') →
  client s' = client s ∧ same_tables s s' ∧
  ∃ pr, Forall is_print pr ∧
    ((o = Yield None ∧ g' = AtMarker ∧ trace s' = trace s ++ pr ++ [Yielded None])
     ∨ (∃ e rest skipped event, o = Yield (Some e) ∧ g' = Suspended rest
          ∧ events = skipped ++ event :: rest
          ∧ trace s' = trace s ++ pr ++ [Yielded (Some e)])
     ∨ (∃ e event (s0 s0' : Slack T), o = Raises e ∧ g' = Finished
          ∧ event ∈ events ∧ handle_event event s0 = (Raise e, s0')
          ∧ trace s' = trace s ++ pr)).
Proof.
  revert s. induction events as [|event rest IH]; intros s; simpl.
  - intros [= <- <- <-]. split; [done|]. split; [done|].
    exists []. split; [done|]. left. done.
  - destruct (handle_event event s) as [[[e|]|e] s1] eqn:Eh;
      pose proof (frames_handle_event event _ _ _ Eh)
        as (Hc & (H1 & H2 & H3) & pr & Ht & Hp).
    + intros [= <- <- <-]. split; [done|]. split; [done|].
      exists pr. split; [done|]. right. left. exists e, rest, [], event.
      simpl. by rewrite Ht, <- app_assoc.
    + intros Hf. destruct (IH _ Hf) as (Hc' & (H1' & H2' & H3') & pr' & Hp' & Hcases).
      split; [congruence|]. split; [repeat split; congruence|].
      exists (pr ++ pr'). split; [by apply Forall_app|].
      destruct Hcases as [(-> & -> & Ht')|[(e & rest' & sk & ev & -> & -> & -> & Ht')
        |(e & ev & s0 & s0' & -> & -> & Hin & Hev & Ht')]].
      * left. rewrite Ht', Ht, <- !app_assoc. done.
      * right. left. exists e, rest', (event :: sk), ev.
        by rewrite Ht', Ht, <- !app_assoc.
      * right. right. exists e, ev, s0, s0'. rewrite Ht', Ht, <- !app_assoc.
        repeat split; try done. by apply list_elem_of_further.
    + intros [= <- <- <-]. split; [done|]. split; [done|].
      exists pr. split; [done|]. right. right. exists e, event, s, s1.
      repeat split; try done. apply list_elem_of_here.
Qed.

(** A batch is over after at most one [next] per envelope and one
    more: typed events only, then the marker, unless handling an
    envelope raised. *)
Lemma cycle_ends (events : list json) :
  ∀ s : Slack T, ∃ k outs last g' s' body,
    consume (S k) (Suspended events) s = (outs ++ [last], g', s')
    ∧ length outs = k ∧ (k ≤ length events)%nat
    ∧ Forall typed outs
    ∧ Forall (λ a, cycle_body a = true) body
    ∧ ((last = Yield None ∧ g' = AtMarker
          ∧ trace s' = trace s ++ body ++ [Yielded None])
       ∨ (∃ e event (s0 s0' : Slack T), last = Raises e ∧ g' = Finished
            ∧ event ∈ events ∧ handle_event event s0 = (Raise e, s0')
            ∧ trace s' = trace s ++ body)).
Proof.
  remember (length events) as n eqn:Hn. revert events Hn.
  induction n as [n IH] using lt_wf_ind. intros events -> s.
  destruct (for_loop events s) as [[o g1] s1] eqn:Ef.
  destruct (for_loop_spec _ _ _ _ _ Ef) as (_ & _ & pr & Hp & Hcases).
  apply is_print_cycle_body in Hp.
  destruct Hcases as [(-> & -> & Ht)|[(e & rest & sk & ev & -> & -> & Hev & Ht)
    |(e & ev & s0 & s0' & -> & -> & Hin & Hev & Ht)]].
  - exists 0, [], (Yield None), AtMarker, s1, pr.
    split; [by simpl; rewrite Ef|]. split; [done|]. split; [lia|].
    split; [done|]. split; [done|]. by left.
  - assert (Hlen : length rest < length events).
    { rewrite Hev, length_app. simpl. lia. }
    destruct (IH (length rest) Hlen rest eq_refl s1)
      as (k & outs & last & g' & s' & body & Hc & Hk & Hle & Hty & Hb & Hcases).
    exists (S k), (Yield (Some e) :: outs), last, g', s',
      (pr ++ [Yielded (Some e)] ++ body).
    split.
    { change (consume (S (S k)) (Suspended events) s)
        with (let '(o, g', s') := for_loop events s in
              let '(os, g'', s'') := consume (S k) g' s' in (o :: os, g'', s'')).
      by rewrite Ef, Hc. }
    split; [by simpl; rewrite Hk|]. split; [lia|].
    split; [by apply Forall_cons; split; [eexists|]|].
    split.
    { apply Forall_app. split; [done|]. by apply Forall_cons. }
    destruct Hcases as [(-> & -> & Ht')|(e' & ev' & s0 & s0' & -> & -> & Hin & Hev' & Ht')].
    + left. rewrite Ht', Ht, <- !app_assoc. done.
    + right. exists e', ev', s0, s0'. rewrite Ht', Ht, <- !app_assoc.
      repeat split; try done.
      rewrite Hev. apply elem_of_app. right. by apply list_elem_of_further.
  - exists 0, [], (Raises e), Finished, s1, pr.
    split; [by simpl; rewrite Ef|]. split; [done|]. split; [lia|].
    split; [done|]. split; [done|]. right. by exists e, ev, s0, s0'.
Qed.

Lemma read_events_spec (s : Slack T) r s1 :
  read_events s = (r, s1) →
  same_tables s s1
  ∧ (trace s1 = trace s ++ [RtmRead] ∨ trace s1 = trace s ++ [RtmRead; RtmConnect]).
Proof.
  unfold read_events, do_rtm_read, do_rtm_connect. simpl.
  destruct (rtm_read (client s)) as [[events|e] c1].
  - intros [= <- <-]. split; [done|]. by left.
  - destruct (transport_failure e).
    + simpl. destruct (rtm_connect false c1) as [[|] c2]; intros [= <- <-];
        (split; [done|]); right; simpl; by rewrite <- app_assoc.
    + intros [= <- <-]. split; [done|]. by left.
Qed.

Lemma while_loop_reads_first (s : Slack T) o g s' :
  while_loop s = (o, g, s') → ∃ rest, trace s' = trace s ++ RtmRead :: rest.
Proof.
  unfold while_loop.
  destruct (read_events s) as [[events|e] s1] eqn:Er;
    apply read_events_spec in Er as [_ Ht].
  - intros Hf. apply for_loop_spec in Hf as (_ & _ & pr & _ & Hcases).
    assert (∃ ext, trace s' = trace s1 ++ ext) as [ext Hext].
    { destruct Hcases as [(_ & _ & Ht')|[(? & ? & ? & ? & _ & _ & _ & Ht')
        |(? & ? & ? & ? & _ & _ & _ & _ & Ht')]]; eauto. }
    rewrite Hext. destruct Ht as [-> | ->]; rewrite <- app_assoc; simpl; eauto.
  - intros [= <- <- <-]. destruct Ht as [-> | ->]; eauto.
Qed.

(** C4. For every read cycle, that is from any state at the head of the
    loop in which the read gives a batch (directly, or empty after a
    failed read and a successful handshake): the consumer receives [k]
    typed events, [k] at most the size of the batch and possibly zero,
    and then exactly one marker, the only exception being an envelope
    whose handling raises, which ends the stream instead. Between the
    read and the marker the trace holds typed events and prints only:
    no other marker and no read; and what the generator does next,
    when asked, starts with a read. *)
Theorem marker_after_every_cycle (s : Slack T) (events : list json) (s1 : Slack T) :
  read_events s = (Return events, s1) →
  (trace s1 = trace s ++ [RtmRead] ∨ trace s1 = trace s ++ [RtmRead; RtmConnect])
  ∧ ∃ k outs last g' s' body,
      consume (S k) AtMarker s = (outs ++ [last], g', s')
      ∧ length outs = k ∧ (k ≤ length events)%nat
      ∧ Forall typed outs
      ∧ Forall (λ a, cycle_body a = true) body
      ∧ ((last = Yield None ∧ g' = AtMarker
            ∧ trace s' = trace s1 ++ body ++ [Yielded None]
            ∧ ∀ o g'' s'', next_ g' s' = (o, g'', s'') →
                ∃ rest, trace s'' = trace s' ++ RtmRead :: rest)
         ∨ (∃ e event (s0 s0' : Slack T), last = Raises e ∧ g' = Finished
              ∧ event ∈ events ∧ handle_event event s0 = (Raise e, s0')
              ∧ trace s' = trace s1 ++ body)).
Proof.
  intros Er. split; [by apply read_events_spec in Er as [_ ?]|].
  destruct (cycle_ends events s1)
    as (k & outs & last & g' & s' & body & Hc & Hk & Hle & Hty & Hb & Hcases).
  exists k, outs, last, g', s', body.
  split.
  { rewrite <- Hc. simpl. unfold while_loop. by rewrite Er. }
  repeat (split; [done|]).
  destruct Hcases as [(-> & -> & Ht)|Hraise]; [left|by right].
  repeat (split; [done|]). intros o g'' s''. simpl. apply while_loop_reads_first.
Qed.

Lemma consume_finished (n : nat) (s : Slack T) :
  consume n Finished s = (replicate n StopIteration, Finished, s).
Proof. induction n as [|n IH]; [done|]. simpl. by rewrite IH. Qed.

(** What [n + 1] calls of [next] give depends on the generator and the
    instance through the first call only. *)
Lemma consume_same_first (n : nat) (g1 g2 : GenState) (s1 s2 : Slack T) :
  next_ g1 s1 = next_ g2 s2 → consume (S n) g1 s1 = consume (S n) g2 s2.
Proof.
  intros Hn.
  change (consume (S n) g1 s1)
    with (let '(o, g', s') := next_ g1 s1 in
          let '(os, g'', s'') := consume n g' s' in (o :: os, g'', s'')).
  by rewrite Hn.
Qed.

(** A consumer that keeps asking receives a batch as [delivered] has it:
    one call of [next] per outcome, nothing lost, nothing added and
    nothing out of order. *)
Lemma consume_delivered (events : list json) :
  ∀ (s : Slack T) outs g s',
    delivered events s = (outs, g, s') →
    outs ≠ [] ∧ consume (length outs) (Suspended events) s = (outs, g, s').
Proof.
  induction events as [|event rest IH]; intros s outs g s'; simpl.
  - intros [= <- <- <-]. by split.
  - destruct (handle_event event s) as [[[e|]|e] s1] eqn:Eh.
    + destruct (delivered rest (record (Yielded (Some e)) s1))
        as [[os g1] s2] eqn:Ed.
      intros [= <- <- <-]. split; [done|].
      destruct (IH _ _ _ _ Ed) as [_ Hc]. simpl. by rewrite Eh, Hc.
    + intros Hd. destruct (IH _ _ _ _ Hd) as [Hne Hc]. split; [done|].
      destruct outs as [|o outs]; [done|].
      rewrite <- Hc. apply consume_same_first. simpl. by rewrite Eh.
    + intros [= <- <- <-]. split; [done|]. simpl. by rewrite Eh.
Qed.

(** C2. At the head of the loop (the stream is in the STREAMING state:
    [next] resumes there after a marker, and the first [next] arrives
    there after its handshake, see [first_next_enters_loop]), when the
    read raises a broken pipe or a timeout: exactly one handshake is
    attempted. If it succeeds the cycle ends with its marker, the
    generator stays in the loop, and its next read is made on the
    connection the handshake left; whatever batch that read gives, the
    consumer receives it: the event of every envelope that has one, in
    order, as [handle_event] types it, and then the marker (or the
    exception of an envelope whose handling raises); in particular the
    very next [next] hands over the event of the first envelope when it
    has one. If the handshake fails the exception of the read is raised
    to the consumer and the generator is over. *)
Theorem transport_failure_one_rehandshake (s : Slack T) e c1 b c2 :
  rtm_read (client s) = (Raise e, c1) →
  transport_failure e = true →
  rtm_connect false c1 = (b, c2) →
  ∃ s', client s' = c2
    ∧ trace s' = trace s ++ [RtmRead; RtmConnect]
    ∧ (b = true →
         next_ AtMarker s = (Yield None, AtMarker, record (Yielded None) s')
         ∧ ∀ events c3, rtm_read c2 = (Return events, c3) →
             next_ AtMarker (record (Yielded None) s')
             = for_loop events
                 (record RtmRead (set_client c3 (record (Yielded None) s')))
             ∧ (∀ outs g'' s'',
                  delivered events
                    (record RtmRead (set_client c3 (record (Yielded None) s')))
                  = (outs, g'', s'') →
                  outs ≠ []
                  ∧ consume (length outs) AtMarker (record (Yielded None) s')
                    = (outs, g'', s''))
             ∧ (∀ event rest ev s_h,
                  events = event :: rest →
                  handle_event event
                    (record RtmRead (set_client c3 (record (Yielded None) s')))
                  = (Return (Emit ev), s_h) →
                  next_ AtMarker (record (Yielded None) s')
                  = (Yield (Some ev), Suspended rest,
                     record (Yielded (Some ev)) s_h)))
    ∧ (b = false →
         next_ AtMarker s = (Raises e, Finished, s')
         ∧ ∀ n, consume n Finished s' = (replicate n StopIteration, Finished, s')).
Proof.
  intros Hr He Hc.
  exists (record RtmConnect (set_client c2 (record RtmRead (set_client c1 s)))).
  split; [done|]. split; [by simpl; rewrite <- app_assoc|].
  assert (Hre : read_events s =
    (if b then Return [] else Raise e,
     record RtmConnect (set_client c2 (record RtmRead (set_client c1 s))))).
  { unfold read_events, do_rtm_read, do_rtm_connect. rewrite Hr, He. simpl.
    rewrite Hc. by destruct b. }
  split; intros ->; simpl; unfold while_loop; rewrite Hre; (split; [done|]).
  - intros events c3 Hr3.
    set (s_m := record (Yielded None)
                  (record RtmConnect (set_client c2 (record RtmRead (set_client c1 s))))).
    assert (Hnext : next_ AtMarker s_m
                    = for_loop events (record RtmRead (set_client c3 s_m))).
    { simpl. unfold while_loop, read_events, do_rtm_read. simpl. by rewrite Hr3. }
    split; [exact Hnext|]. split.
    + intros outs g'' s'' Hd.
      destruct (consume_delivered _ _ _ _ _ Hd) as [Hne Hcons].
      split; [done|]. rewrite <- Hcons.
      destruct outs as [|o outs]; [done|].
      apply consume_same_first. exact Hnext.
    + intros event rest ev s_h -> Hh. etrans; [exact Hnext|].
      simpl. by rewrite Hh.
  - intros n. apply consume_finished.
Qed.

(** C3, amended. If the first handshake fails ([rtm_connect] gives
    false), the generator ends at once: the first [next] and every
    later one find the sequence over, nothing is read and nothing is
    yielded, and no exception reaches the consumer. *)
Theorem initial_handshake_failure_ends (s : Slack T) c :
  rtm_connect false (client s) = (false, c) →
  next_ events_iter s
  = (StopIteration, Finished, record RtmConnect (set_client c s))
  ∧ ∀ n, consume (S n) events_iter s
         = (replicate (S n) StopIteration, Finished,
            record RtmConnect (set_client c s)).
Proof.
  intros Hc.
  assert (Hn : next_ events_iter s
               = (StopIteration, Finished, record RtmConnect (set_client c s))).
  { simpl. unfold do_rtm_connect. by rewrite Hc. }
  split; [done|]. intros n.
  change (consume (S n) events_iter s)
    with (let '(o, g', s') := next_ events_iter s in
          let '(os, g'', s'') := consume n g' s' in (o :: os, g'', s'')).
  by rewrite Hn, consume_finished.
Qed.

(** ** The memoisation tables over the life of an instance *)

(** [channels] keeps the tables coherent and, when it returns, leaves
    exactly the listing it returned in its table. *)
Lemma channels_coherent (s : Slack T) res s' :
  coherent s → channels s = (res, s') →
  coherent s'
  ∧ get_channel_cache s' = get_channel_cache s
  ∧ get_channel_by_name_cache s' = get_channel_by_name_cache s
  ∧ (∀ l, res = Return l → channels_cache s' = [((), l)]).
Proof.
  unfold coherent. intros Hc.
  destruct (channels_cache s) as [|[[] l] [|]] eqn:E; [| |done].
  - rewrite channels_miss by done.
    destruct (channels_body () s) as [r0 s0] eqn:Eb.
    apply channels_body_frame in Eb as (_ & _ & _ & Hcc & Hg & Hn).
    destruct Hc as [Hg0 Hn0].
    destruct r0 as [l|e]; intros [= <- <-]; simpl.
    + rewrite Hg, Hn, Hg0, Hn0. unfold keyed_by.
      split; [by split|]. split; [done|]. split; [done|]. by intros ? [= ->].
    + rewrite Hcc, E, Hg, Hn. done.
  - rewrite (channels_hit s l E). intros [= <- <-]. rewrite E.
    split; [done|]. split; [done|]. split; [done|]. by intros ? [= ->].
Qed.

Lemma scan_found (key : Channel → string) (x : string) (l : list Channel)
    (s : Slack T) c s' :
  scan key x l s = (Return c, s') → s' = s ∧ key c = x ∧ c ∈ l.
Proof.
  induction l as [|a l IH]; simpl; [done|].
  destruct (String.eqb_spec (key a) x) as [E|E].
  - intros [= <- <-]. repeat split; [done|]. apply list_elem_of_here.
  - intros Hs. destruct (IH Hs) as (? & ? & ?). repeat split; try done.
    by apply list_elem_of_further.
Qed.

Lemma scan_state (key : Channel → string) (x : string) (l : list Channel)
    (s : Slack T) : (scan key x l s).2 = s.
Proof.
  induction l as [|a l IH]; simpl; [done|].
  by destruct (String.eqb (key a) x).
Qed.

Lemma scan_absent (key : Channel → string) (x : string) (l : list Channel)
    (s : Slack T) :
  x ∉ map key l → scan key x l s = (Raise (KeyError NoArg), s).
Proof.
  induction l as [|a l IH]; simpl; [done|].
  intros Hn. destruct (String.eqb_spec (key a) x) as [E|E].
  - exfalso. apply Hn. rewrite E. apply list_elem_of_here.
  - apply IH. intros Hin. apply Hn. by apply list_elem_of_further.
Qed.

Lemma lru_find_keyed (key : Channel → string) (l : list Channel)
    (c : list (string * Channel)) (k : string) (v : Channel) :
  keyed_by key l c → lru_find k c = Some v → key v = k ∧ v ∈ l.
Proof.
  unfold lru_find. intros Hk Hf.
  destruct (List.find _ c) as [[k' v']|] eqn:E; [|done].
  simpl in Hf. injection Hf as ->.
  apply find_some in E as [Hin Hb]. simpl in Hb.
  apply bool_decide_eq_true_1 in Hb. subst k'.
  unfold keyed_by in Hk. rewrite Forall_forall in Hk.
  apply (Hk (k, v)). by apply list_elem_of_In.
Qed.

Lemma coherent_same_tables (s s' : Slack T) :
  same_tables s s' → coherent s → coherent s'.
Proof. intros (H1 & H2 & H3). unfold coherent. by rewrite H1, H2, H3. Qed.

Lemma get_user_same_tables (s : Slack T) i r s' :
  get_user i s = (r, s') → same_tables s s'.
Proof.
  unfold get_user. destruct (_usercache s !! i); [by intros [= <- <-]|].
  unfold bind, do_api_call, load, subscript, ret, raise.
  destruct (api_call _ _ _) as [j c].
  destruct (Load.response j) as [resp|]; [|by intros [= <- <-]].
  destruct (ok resp); [|by intros [= <- <-]].
  destruct j as [| | | | |dj]; try by intros [= <- <-].
  destruct (dj !! "user") as [raw|]; [|by intros [= <- <-]].
  destruct (Load.user raw); by intros [= <- <-].
Qed.

Lemma send_message_same_tables (s : Slack T) c m r s' :
  send_message c m s = (r, s') → same_tables s s'.
Proof.
  unfold send_message, bind, do_api_call, load, ret, raise.
  destruct (api_call _ _ _) as [j c0].
  destruct (Load.response j) as [resp|]; [|by intros [= <- <-]].
  destruct (ok resp); by intros [= <- <-].
Qed.

Lemma next_same_tables (g : GenState) (s : Slack T) o g' s' :
  next_ g s = (o, g', s') → same_tables s s'.
Proof.
  assert (Hw : ∀ s0 : Slack T, while_loop s0 = (o, g', s') → same_tables s0 s').
  { intros s0. unfold while_loop.
    destruct (read_events s0) as [[events|e] s1] eqn:Er;
      apply read_events_spec in Er as [(H1 & H2 & H3) _].
    - intros Hf. apply for_loop_spec in Hf as (_ & (H1' & H2' & H3') & _).
      repeat split; congruence.
    - by intros [= <- <- <-]. }
  destruct g as [|rest| |]; simpl.
  - unfold do_rtm_connect. destruct (rtm_connect false (client s)) as [[|] c].
    + intros Hl. by apply Hw in Hl.
    + by intros [= <- <- <-].
  - intros Hf. by apply for_loop_spec in Hf as (_ & ? & _).
  - apply Hw.
  - by intros [= <- <- <-].
Qed.

Lemma keyed_by_hit key l (c : list (string * Channel)) k v :
  keyed_by key l c → lru_find k c = Some v → keyed_by key l (lru_hit k v c).
Proof.
  intros Hk Hf. unfold lru_hit, keyed_by.
  apply Forall_cons. split; [by eapply lru_find_keyed|].
  unfold keyed_by in Hk. rewrite Forall_forall in Hk. apply Forall_forall.
  intros x Hx. apply Hk. apply list_elem_of_In in Hx.
  apply filter_In in Hx as [Hx _]. by apply list_elem_of_In.
Qed.

Lemma keyed_by_store key l (c : list (string * Channel)) k v :
  keyed_by key l c → key v = k → v ∈ l → keyed_by key l (lru_store k v c).
Proof.
  intros Hk Hkey Hin. unfold lru_store, keyed_by.
  apply Forall_take. by apply Forall_cons.
Qed.

Lemma get_channel_coherent (s : Slack T) i r s' :
  coherent s → get_channel i s = (r, s') → coherent s'.
Proof.
  intros Hc. unfold get_channel, lru_cache.
  destruct (lru_find i (get_channel_cache s)) as [v|] eqn:Ef.
  - intros [= <- <-]. unfold coherent in *. simpl.
    destruct (channels_cache s) as [|[[] l] [|]]; [|
      split; [by apply keyed_by_hit; [apply Hc|]|apply Hc] | done].
    destruct Hc as [Hg _]. by rewrite Hg in Ef.
  - unfold get_channel_body, bind.
    destruct (channels s) as [[l|e] s1] eqn:Ech;
      destruct (channels_coherent _ _ _ Hc Ech) as (Hc1 & Hg & Hn & Hcc).
    + destruct (scan id i l s1) as [[c|e] s2] eqn:Es.
      * apply scan_found in Es as (-> & Hid & Hin). intros [= <- <-].
        unfold coherent in *. simpl. rewrite (Hcc l eq_refl) in *.
        split; [by apply keyed_by_store; [apply Hc1| |]|apply Hc1].
      * pose proof (scan_state id i l s1) as Hs. rewrite Es in Hs. simpl in Hs.
        subst s2. by intros [= <- <-].
    + by intros [= <- <-].
Qed.

Lemma get_channel_by_name_coherent (s : Slack T) n r s' :
  coherent s → get_channel_by_name n s = (r, s') → coherent s'.
Proof.
  intros Hc. unfold get_channel_by_name, lru_cache.
  destruct (lru_find n (get_channel_by_name_cache s)) as [v|] eqn:Ef.
  - intros [= <- <-]. unfold coherent in *. simpl.
    destruct (channels_cache s) as [|[[] l] [|]]; [|
      split; [apply Hc|by apply keyed_by_hit; [apply Hc|]] | done].
    destruct Hc as [_ Hn]. by rewrite Hn in Ef.
  - unfold get_channel_by_name_body, bind.
    destruct (channels s) as [[l|e] s1] eqn:Ech;
      destruct (channels_coherent _ _ _ Hc Ech) as (Hc1 & Hg & Hn & Hcc).
    + destruct (scan name n l s1) as [[c|e] s2] eqn:Es.
      * apply scan_found in Es as (-> & Hid & Hin). intros [= <- <-].
        unfold coherent in *. simpl. rewrite (Hcc l eq_refl) in *.
        split; [apply Hc1|by apply keyed_by_store; [apply Hc1| |]].
      * pose proof (scan_state name n l s1) as Hs. rewrite Es in Hs. simpl in Hs.
        subst s2. by intros [= <- <-].
    + by intros [= <- <-].
Qed.

(** A lookup leaves the table of [channels] as it is once that table
    holds a listing. *)
Lemma get_channel_keeps_listing (s : Slack T) (l : list Channel) i :
  channels_cache s = [((), l)] →
  channels_cache (get_channel i s).2 = [((), l)].
Proof.
  intros E. unfold get_channel, lru_cache.
  destruct (lru_find i (get_channel_cache s)); [done|].
  unfold get_channel_body, bind. rewrite (channels_hit s l E).
  destruct (scan id i l s) as [[c|e] s2] eqn:Es;
    pose proof (scan_state id i l s) as Hs; rewrite Es in Hs; simpl in Hs;
    by subst s2.
Qed.

Lemma get_channel_by_name_keeps_listing (s : Slack T) (l : list Channel) n :
  channels_cache s = [((), l)] →
  channels_cache (get_channel_by_name n s).2 = [((), l)].
Proof.
  intros E. unfold get_channel_by_name, lru_cache.
  destruct (lru_find n (get_channel_by_name_cache s)); [done|].
  unfold get_channel_by_name_body, bind. rewrite (channels_hit s l E).
  destruct (scan name n l s) as [[c|e] s2] eqn:Es;
    pose proof (scan_state name n l s) as Hs; rewrite Es in Hs; simpl in Hs;
    by subst s2.
Qed.

(** Once stored, the listing stays for the rest of the life of the
    instance: there is no refresh and no eviction. *)
Lemma listing_kept (s s' : Slack T) (l : list Channel) :
  channels_cache s = [((), l)] → evolves s s' → channels_cache s' = [((), l)].
Proof.
  intros E Hev.
  induction Hev as [|s1 _ IH|s1 i _ IH|s1 n _ IH|s1 i _ IH|s1 c m _ IH|g s1 _ IH].
  - done.
  - by rewrite (channels_hit s1 l IH).
  - by apply get_channel_keeps_listing.
  - by apply get_channel_by_name_keeps_listing.
  - destruct (get_user i s1) as [r s2] eqn:Eu. simpl.
    apply get_user_same_tables in Eu as (Hc & _). by rewrite Hc.
  - destruct (send_message c m s1) as [r s2] eqn:Eu. simpl.
    apply send_message_same_tables in Eu as (Hc & _). by rewrite Hc.
  - destruct (next_ g s1) as [[o g'] s2] eqn:En. simpl.
    apply next_same_tables in En as (Hc & _). by rewrite Hc.
Qed.

(** C1. For every pair of responses where the [channels.list] fetch and
    the [groups.list] fetch both report [ok = true] and carry
    collections that decode to [cs] and [gs]: on an instance that has
    not listed its channels yet, each of [n + 1] calls of [channels] in
    a row returns [cs ++ gs], and all of them together make exactly one
    [channels.list] call and one [groups.list] call; and whatever the
    instance does afterwards, a later call of [channels] returns
    [cs ++ gs] again and leaves the instance, its trace included, as it
    found it. *)
Theorem channels_memoized (s : Slack T) r1 c1 resp1 cs r2 c2 resp2 gs (n : nat) :
  channels_cache s = [] →
  api_call "channels.list" exclude_archived (client s) = (r1, c1) →
  Load.response r1 = Some resp1 → ok resp1 = true →
  collection "channels" r1 = Some cs →
  api_call "groups.list" exclude_archived c1 = (r2, c2) →
  Load.response r2 = Some resp2 → ok resp2 = true →
  collection "groups" r2 = Some gs →
  ∃ s', repeat_call (S n) channels s = (replicate (S n) (Return (cs ++ gs)), s')
    ∧ trace s' = trace s ++ [ApiCall "channels.list" exclude_archived;
                             ApiCall "groups.list" exclude_archived]
    ∧ api_calls "channels.list" (trace s') = S (api_calls "channels.list" (trace s))
    ∧ api_calls "groups.list" (trace s') = S (api_calls "groups.list" (trace s))
    ∧ ∀ s'', evolves s' s'' → channels s'' = (Return (cs ++ gs), s'').
Proof.
  intros E Ha1 Hr1 Ho1 Hc1 Ha2 Hr2 Ho2 Hc2.
  destruct (channels_first_call s _ _ _ _ _ _ _ _ E Ha1 Hr1 Ho1 Hc1 Ha2 Hr2 Ho2 Hc2)
    as (s' & Hs' & Hcache & _ & Htr).
  exists s'. split.
  - simpl. rewrite Hs'.
    by rewrite (repeat_call_fixed channels s' _ n (channels_hit s' _ Hcache)).
  - split; [done|]. rewrite Htr. unfold api_calls.
    rewrite !filter_app, !length_app. simpl.
    split; [lia|]. split; [lia|].
    intros s'' Hev. apply channels_hit. by eapply listing_kept.
Qed.

(** Every reachable instance has coherent tables. *)
Lemma reachable_coherent (s : Slack T) : reachable s → coherent s.
Proof.
  intros [c0 Hev].
  induction Hev as [|s _ IH|s i _ IH|s n _ IH|s i _ IH|s c m _ IH|g s _ IH].
  - by split.
  - destruct (channels s) as [r s'] eqn:E. simpl.
    by destruct (channels_coherent _ _ _ IH E).
  - destruct (get_channel i s) as [r s'] eqn:E. simpl.
    by eapply get_channel_coherent.
  - destruct (get_channel_by_name n s) as [r s'] eqn:E. simpl.
    by eapply get_channel_by_name_coherent.
  - destruct (get_user i s) as [r s'] eqn:E. simpl.
    eapply coherent_same_tables; [by eapply get_user_same_tables|done].
  - destruct (send_message c m s) as [r s'] eqn:E. simpl.
    eapply coherent_same_tables; [by eapply send_message_same_tables|done].
  - destruct (next_ g s) as [[o g'] s'] eqn:E. simpl.
    eapply coherent_same_tables; [by eapply next_same_tables|done].
Qed.

(** ** Lookups by id and by name *)

Lemma lru_find_absent (key : Channel → string) (s : Slack T)
    (c : list (string * Channel)) (l : list Channel) (s1 : Slack T) (x : string) :
  match channels_cache s with
  | [] => c = []
  | [(_, l')] => keyed_by key l' c
  | _ => False
  end →
  channels s = (Return l, s1) →
  x ∉ map key l →
  lru_find x c = None.
Proof.
  intros Hc Ech Hx.
  destruct (channels_cache s) as [|[[] l'] [|]] eqn:E; [by subst c| |done].
  rewrite (channels_hit s l' E) in Ech. injection Ech as -> _.
  destruct (lru_find x c) as [v|] eqn:Ef; [|done].
  destruct (lru_find_keyed _ _ _ _ _ Hc Ef) as [Hk Hin].
  exfalso. apply Hx. rewrite <- Hk. apply list_elem_of_In, in_map.
  by apply list_elem_of_In.
Qed.

Lemma get_channel_absent (s : Slack T) (l : list Channel) (s1 : Slack T)
    (id_ : string) :
  coherent s → channels s = (Return l, s1) → id_ ∉ map id l →
  get_channel id_ s = (Raise (KeyError NoArg), s1).
Proof.
  intros Hc Ech Hx. unfold get_channel, lru_cache.
  rewrite (lru_find_absent id s _ l s1 id_); [|
    unfold coherent in Hc; by destruct (channels_cache s) as [|[[] ?] [|]];
      [destruct Hc| destruct Hc|] | done | done].
  unfold get_channel_body, bind. rewrite Ech.
  by rewrite scan_absent.
Qed.

Lemma get_channel_by_name_absent (s : Slack T) (l : list Channel) (s1 : Slack T)
    (name_ : string) :
  coherent s → channels s = (Return l, s1) → name_ ∉ map name l →
  get_channel_by_name name_ s = (Raise (KeyError NoArg), s1).
Proof.
  intros Hc Ech Hx. unfold get_channel_by_name, lru_cache.
  rewrite (lru_find_absent name s _ l s1 name_); [|
    unfold coherent in Hc; by destruct (channels_cache s) as [|[[] ?] [|]];
      [destruct Hc| destruct Hc|] | done | done].
  unfold get_channel_by_name_body, bind. rewrite Ech.
  by rewrite scan_absent.
Qed.

Lemma channels_return (s : Slack T) (l : list Channel) (s1 : Slack T) :
  coherent s → channels s = (Return l, s1) →
  coherent s1
  ∧ channels s1 = (Return l, s1)
  ∧ (channels_cache s ≠ [] → s1 = s)
  ∧ (trace s1 = trace s
     ∨ trace s1 = trace s ++ [ApiCall "channels.list" exclude_archived;
                              ApiCall "groups.list" exclude_archived]).
Proof.
  intros Hc Ech.
  destruct (channels_coherent _ _ _ Hc Ech) as (Hc1 & _ & _ & Hcc).
  split; [done|]. split; [apply channels_hit; by apply Hcc|].
  unfold coherent in Hc.
  destruct (channels_cache s) as [|[[] l'] [|]] eqn:E; [| |done].
  - split; [done|]. right. rewrite channels_miss in Ech by done.
    destruct (channels_body () s) as [[l0|e] s0] eqn:Eb; [|done].
    injection Ech as -> <-. simpl.
    apply channels_body_frame in Eb as (_ & Ht & _). by apply (Ht l).
  - rewrite (channels_hit s l' E) in Ech. injection Ech as -> ->.
    split; [done|]. by left.
Qed.

(** C9. On a reachable instance whose channel listing is [l] (fetched
    already, or fetched successfully by the call at hand): for every id
    that no channel of [l] has, each of [n + 1] calls of [get_channel]
    raises [KeyError], and all of them together leave the instance
    where a single call of [channels] leaves it; the same for a name
    and [get_channel_by_name]. That single call is free when the
    listing is stored already, and costs one [channels.list] and one
    [groups.list] call at most. *)
Theorem lookup_absent_raises (s : Slack T) (l : list Channel) (s1 : Slack T) :
  reachable s →
  channels s = (Return l, s1) →
  (∀ id_ n, id_ ∉ map id l →
     repeat_call (S n) (get_channel id_) s
     = (replicate (S n) (Raise (KeyError NoArg)), s1))
  ∧ (∀ name_ n, name_ ∉ map name l →
     repeat_call (S n) (get_channel_by_name name_) s
     = (replicate (S n) (Raise (KeyError NoArg)), s1))
  ∧ channels s1 = (Return l, s1)
  ∧ (channels_cache s ≠ [] → s1 = s)
  ∧ (api_calls "channels.list" (trace s1) ≤ S (api_calls "channels.list" (trace s)))%nat
  ∧ (api_calls "groups.list" (trace s1) ≤ S (api_calls "groups.list" (trace s)))%nat.
Proof.
  intros Hr Ech. apply reachable_coherent in Hr.
  destruct (channels_return _ _ _ Hr Ech) as (Hc1 & Hhit & Hsame & Ht).
  split; [|split].
  - intros id_ n Hx. simpl.
    rewrite (get_channel_absent s l s1 id_ Hr Ech Hx).
    by rewrite (repeat_call_fixed _ _ _ n (get_channel_absent s1 l s1 id_ Hc1 Hhit Hx)).
  - intros name_ n Hx. simpl.
    rewrite (get_channel_by_name_absent s l s1 name_ Hr Ech Hx).
    by rewrite (repeat_call_fixed _ _ _ n
                  (get_channel_by_name_absent s1 l s1 name_ Hc1 Hhit Hx)).
  - split; [done|]. split; [done|].
    destruct Ht as [-> | ->]; [split; lia|].
    unfold api_calls. rewrite !filter_app, !length_app. simpl. split; lia.
Qed.

End Properties.

(** * The properties on the sample instances *)

Lemma real_topic_spec_witness :
  real_topic Sample.secret = "plans"
  ∧ real_topic Sample.general = "talk"
  ∧ real_topic Sample.silent = "".
Proof.
  split; [|split].
  - destruct (real_topic_spec Sample.secret) as (Hset & _ & _).
    apply Hset. discriminate.
  - destruct (real_topic_spec Sample.general) as (_ & Hunset & _).
    apply Hunset. reflexivity.
  - destruct (real_topic_spec Sample.silent) as (_ & _ & Hboth).
    apply Hboth; reflexivity.
Defined.

Lemma message_changed_edit_witness :
  next_ (Suspended [JDict Sample.edited]) Sample.streaming
  = (Yield (Some (EvMessageEdit
       (mkMessageEdit (mkMessage "C1" "U1" "old") (mkMessage "C1" "U1" "new")))),
     Suspended [],
     record (Yielded (Some (EvMessageEdit
       (mkMessageEdit (mkMessage "C1" "U1" "old") (mkMessage "C1" "U1" "new")))))
       Sample.streaming).
Proof.
  destruct (message_changed_edit Sample.streaming Sample.edited
              (<["user" := JStr "U1"]> {[ "text" := JStr "new" ]})
              (<["user" := JStr "U1"]> {[ "text" := JStr "old" ]})
              "C1" "U1" "new" "U1" "old" [])
    as (_ & _ & _ & Hnext); [vm_compute; reflexivity .. | exact Hnext].
Defined.

Lemma message_deleted_delete_witness :
  handle_event (JDict Sample.removed) Sample.streaming
  = (Return (Emit (EvMessageDelete (mkMessageDelete (mkMessage "C2" "U2" "gone")))),
     Sample.streaming).
Proof.
  destruct (message_deleted_delete Sample.streaming Sample.removed
              (<["user" := JStr "U2"]> {[ "text" := JStr "gone" ]})
              "C2" "U2" "gone" [])
    as (_ & Hhandle & _); [vm_compute; reflexivity .. | exact Hhandle].
Defined.

Lemma user_change_evicts_witness :
  ∃ s', handle_event (JDict Sample.changed) Sample.knows_ann = (Return Quiet, s')
    ∧ trace s' = trace Sample.knows_ann
    ∧ _usercache s' = delete "U1" (_usercache Sample.knows_ann)
    ∧ get_user "U1" Sample.knows_ann = (Return Sample.ann, Sample.knows_ann)
    ∧ ∀ r s'', get_user "U1" s' = (r, s'') →
        trace s'' = trace s' ++ [ApiCall "users.info" {[ "user" := JStr "U1" ]}].
Proof.
  destruct (user_change_evicts Sample.knows_ann Sample.changed Sample.user_raw Sample.ann)
    as (s' & Hhandle & _ & Htrace & _ & Hcache & _ & Hcached);
    [vm_compute; reflexivity .. |].
  destruct (Hcached Sample.ann) as [Hbefore Hafter]; [vm_compute; reflexivity|].
  exists s'. split; [exact Hhandle|]. split; [exact Htrace|].
  split; [exact Hcache|]. split; [exact Hbefore|exact Hafter].
Defined.

Lemma channels_memoized_witness :
  ∃ s', repeat_call 3 channels Sample.fresh
        = (replicate 3 (Return [Sample.general; Sample.secret]), s')
    ∧ api_calls "channels.list" (trace s') = 1
    ∧ api_calls "groups.list" (trace s') = 1.
Proof.
  destruct (channels_memoized Sample.fresh
              Sample.channels_reply (mkScript [Sample.groups_reply] [] [])
              (mkResponse true ∅) [Sample.general]
              Sample.groups_reply (mkScript [] [] [])
              (mkResponse true ∅) [Sample.secret] 2)
    as (s' & Hcalls & _ & Hc & Hg & _); [vm_compute; reflexivity .. |].
  exists s'. split; [exact Hcalls|]. split; [exact Hc|exact Hg].
Defined.

Lemma channels_failure_not_memoized_witness :
  ∃ resp s',
    channels Sample.refused = (Raise (ResponseException (ArgResponse resp)), s')
    ∧ ok resp = false
    ∧ channels_cache s' = [].
Proof.
  destruct (channels_failure_not_memoized Sample.refused
              Sample.channels_reply
              (mkScript [Sample.refusal; Sample.channels_reply; Sample.groups_reply] [] [])
              (mkResponse true ∅))
    as (resp & s' & Hraise & Hok & Hcache & _);
    [vm_compute; reflexivity | vm_compute; reflexivity | vm_compute; reflexivity | |].
  - right. split; [reflexivity|].
    exists [Sample.general], Sample.refusal,
      (mkScript [Sample.channels_reply; Sample.groups_reply] [] []),
      (mkResponse false ∅).
    repeat split; vm_compute; reflexivity.
  - exists resp, s'. split; [exact Hraise|]. split; [exact Hok|exact Hcache].
Defined.

Lemma marker_after_every_cycle_witness :
  ∃ k outs g' s',
    consume (S k) AtMarker Sample.streaming = (outs ++ [Yield None], g', s')
    ∧ length outs = k ∧ Forall typed outs ∧ g' = AtMarker.
Proof.
  destruct (marker_after_every_cycle Sample.streaming
              [Sample.hello; JDict Sample.edited; Sample.pong]
              (read_events Sample.streaming).2)
    as (_ & k & outs & last & g' & s' & body & Hrun & Hk & _ & Hty & _ & Hlast);
    [vm_compute; reflexivity |].
  destruct Hlast as [(-> & -> & _)|(e & ev & s0 & s0' & _ & _ & Hin & Hraise & _)].
  - exists k, outs, AtMarker, s'. repeat split; assumption.
  - exfalso. clear Hrun.
    apply elem_of_cons in Hin as [->|Hin];
      [|apply elem_of_cons in Hin as [->|Hin];
        [|apply elem_of_cons in Hin as [->|Hin]; [|by apply elem_of_nil in Hin]]].
    all: revert Hraise; unfold handle_event, bind, get_, ret; simpl; discriminate.
Defined.

Lemma transport_failure_one_rehandshake_witness :
  (∃ s', trace s' = [RtmRead; RtmConnect]
     ∧ next_ AtMarker Sample.recovering
       = (Yield None, AtMarker, record (Yielded None) s')
     ∧ (∃ s_h, next_ AtMarker (record (Yielded None) s')
               = (Yield (Some (EvMessageDelete
                                 (mkMessageDelete (mkMessage "C2" "U2" "gone")))),
                  Suspended [], s_h))
     ∧ (∃ s'', consume 2 AtMarker (record (Yielded None) s')
               = ([Yield (Some (EvMessageDelete
                                  (mkMessageDelete (mkMessage "C2" "U2" "gone"))));
                   Yield None], AtMarker, s'')))
  ∧ (∃ s', trace s' = [RtmRead; RtmConnect]
     ∧ next_ AtMarker Sample.lost = (Raises BrokenPipeError, Finished, s')).
Proof.
  split.
  - destruct (transport_failure_one_rehandshake Sample.recovering TimeoutError
                (mkScript [] [true] [Return [JDict Sample.removed]]) true
                (mkScript [] [] [Return [JDict Sample.removed]]))
      as (s' & _ & Htrace & Hgood & _); [vm_compute; reflexivity .. |].
    destruct (Hgood eq_refl) as [Hmarker Hresumed].
    destruct (Hresumed [JDict Sample.removed] (mkScript [] [] []) eq_refl)
      as (_ & Hbatch & Hfirst).
    exists s'. split; [exact Htrace|]. split; [exact Hmarker|]. split.
    + eexists. apply (Hfirst (JDict Sample.removed) []); [reflexivity|].
      vm_compute; reflexivity.
    + eexists.
      refine (proj2 (Hbatch
                [Yield (Some (EvMessageDelete
                                (mkMessageDelete (mkMessage "C2" "U2" "gone"))));
                 Yield None] AtMarker _ _)).
      vm_compute; reflexivity.
  - destruct (transport_failure_one_rehandshake Sample.lost BrokenPipeError
                (mkScript [] [false] []) false (mkScript [] [] []))
      as (s' & _ & Htrace & _ & Hbad); [vm_compute; reflexivity .. |].
    exists s'. split; [exact Htrace|]. exact (proj1 (Hbad eq_refl)).
Defined.

(** C3 as the specification words it fails on the instance whose first
    handshake fails: [next] finds the sequence over, it raises
    nothing. *)
Lemma initial_handshake_failure_not_raised :
  ¬ raises_on_failed_handshake Sample.unreachable.
Proof.
  intros Hraised.
  destruct (Hraised (mkScript [] [] [])) as [e He]; [reflexivity|].
  discriminate He.
Qed.

Lemma initial_handshake_failure_ends_witness :
  consume 3 events_iter Sample.unreachable
  = (replicate 3 StopIteration, Finished,
     record RtmConnect (set_client (mkScript [] [] []) Sample.unreachable)).
Proof.
  destruct (initial_handshake_failure_ends Sample.unreachable (mkScript [] [] []))
    as (_ & Hall); [reflexivity|].
  exact (Hall 2).
Defined.

Lemma lookup_absent_raises_witness :
  repeat_call 3 (get_channel "C9") Sample.fresh
  = (replicate 3 (Raise (KeyError NoArg)), (channels Sample.fresh).2)
  ∧ repeat_call 3 (get_channel_by_name "nowhere") Sample.fresh
  = (replicate 3 (Raise (KeyError NoArg)), (channels Sample.fresh).2).
Proof.
  destruct (lookup_absent_raises Sample.fresh [Sample.general; Sample.secret]
              (channels Sample.fresh).2)
    as (Hid & Hname & _).
  - exists (client Sample.fresh). apply evolves_refl.
  - vm_compute; reflexivity.
  - split.
    + apply (Hid "C9" 2). apply (bool_decide_unpack _). vm_compute. exact I.
    + apply (Hname "nowhere" 2). apply (bool_decide_unpack _). vm_compute. exact I.
Defined.

(** * Further properties *)

Section More.
Context {T : Type} `{Transport T}.

Ltac dict := repeat first [ rewrite lookup_insert_eq | rewrite lookup_insert_ne by discriminate ].

(** ** Methods that leave the instance alone *)

Lemma pure_ret {A} (a : A) : pure (T:=T) (ret a).
Proof. by intros s r s' [= <- <-]. Qed.

Lemma pure_raise {A} (e : exn) : pure (@raise T A e).
Proof. by intros s r s' [= <- <-]. Qed.

Lemma pure_bind {A B} (m : M T A) (k : A → M T B) :
  pure m → (∀ a, pure (k a)) → pure (bind m k).
Proof.
  intros Hm Hk s r s'. unfold bind.
  destruct (m s) as [[a|e] s1] eqn:E.
  - intros Hka. apply Hk in Hka. apply Hm in E. congruence.
  - intros [= <- <-]. by apply Hm in E.
Qed.

Lemma pure_load {A} (f : json → option A) (raw : json) : pure (T:=T) (load f raw).
Proof. unfold load. destruct (f raw); [apply pure_ret|apply pure_raise]. Qed.

Lemma pure_subscript (raw : json) (key : string) : pure (T:=T) (subscript raw key).
Proof.
  unfold subscript. destruct raw; try apply pure_raise.
  destruct (d !! key); [apply pure_ret|apply pure_raise].
Qed.

Lemma pure_get (event : json) (key : string) : pure (T:=T) (get_ event key).
Proof. unfold get_. destruct event; try apply pure_raise. apply pure_ret. Qed.

Lemma pure_setitem_nested (event : json) (outer inner : string) (v : json) :
  pure (T:=T) (setitem_nested event outer inner v).
Proof.
  unfold setitem_nested. apply pure_bind; [apply pure_subscript|].
  intros nested. destruct nested, event; try apply pure_raise. apply pure_ret.
Qed.

Lemma frames_res_bind_pure {A B} (R : Slack T → result B → Slack T → Prop)
    (m : M T A) (k : A → M T B) :
  (∀ s e, R s (Raise e) s) → pure m → (∀ a, frames_res R (k a)) →
  frames_res R (bind m k).
Proof.
  intros Hrefl Hm Hk s r s'. unfold bind.
  destruct (m s) as [[a|e] s1] eqn:E; apply Hm in E; subst s1.
  - apply Hk.
  - intros [= <- <-]. apply Hrefl.
Qed.

Lemma frames_res_of_pure {A} (R : Slack T → result A → Slack T → Prop) (m : M T A) :
  (∀ s r, R s r s) → pure m → frames_res R m.
Proof. intros Hrefl Hm s r s' E. apply Hm in E. subst s'. apply Hrefl. Qed.

Lemma handle_event_effect (event : json) (s : Slack T) r s' :
  handle_event event s = (r, s') →
  envelope_effect event s s'
  ∧ (∀ e, r = Return (Emit e) → s' = s)
  ∧ (∀ e, r = Raise e → s' = s).
Proof.
  revert s r s'.
  set (R := λ (s : Slack T) (r : result Handled) (s' : Slack T),
         envelope_effect event s s'
         ∧ (∀ e, r = Return (Emit e) → s' = s)
         ∧ (∀ e, r = Raise e → s' = s)).
  assert (Hrefl : ∀ s r, R s r s) by (intros s r; split; [by left|done]).
  change (frames_res R (handle_event event)).
  unfold handle_event.
  repeat first
    [ apply frames_res_of_pure; [exact Hrefl|];
      first [ apply pure_ret | apply pure_raise ]
    | apply frames_res_bind_pure;
        [ intros; apply Hrefl
        | first [ apply pure_get | apply pure_subscript | apply pure_load
                | apply pure_setitem_nested ]
        | intros ? ]
    | match goal with |- frames_res _ (if ?b then _ else _) => destruct b end ].
  - intros s r s'. destruct (_usercache s !! _) eqn:E; intros [= <- <-].
    + split; [|done]. right. right. eexists. split; [|done]. by rewrite E.
    + apply Hrefl.
  - intros s r s' [= <- <-]. split; [|done]. right. by left.
Qed.


(** ** What each kind of envelope becomes *)

Lemma eq_str_true (x : option json) (lit : string) :
  eq_str x lit = true → x = Some (JStr lit).
Proof.
  destruct x as [[| | |k| |]|]; simpl; try done.
  intros E. apply String.eqb_eq in E. by subst.
Qed.

Lemma eq_str_other (k lit : string) : k ≠ lit → eq_str (Some (JStr k)) lit = false.
Proof. intros E. simpl. by apply String.eqb_neq. Qed.

Lemma list_of_str (l : list string) : Load.list_of Load.str (JList (JStr <$> l)) = Some l.
Proof.
  unfold Load.list_of. apply mapM_Some. apply Forall2_fmap_l.
  by apply Forall_Forall2_diag, Forall_forall.
Qed.

(** X9. An envelope of kind [message] whose [subtype] is absent or
    false as a truth value (null, the empty string), with string
    [channel], [user] and [text]: the Message with these three is
    handed to the consumer, other entries of the envelope are ignored
    and the instance is unchanged. *)
Theorem plain_message_emitted (s : Slack T) (d : gmap string json)
    (C U Tx : string) (rest : list json) :
  d !! "type" = Some (JStr "message") →
  truthy_opt (d !! "subtype") = false →
  d !! "channel" = Some (JStr C) →
  d !! "user" = Some (JStr U) →
  d !! "text" = Some (JStr Tx) →
  handle_event (JDict d) s = (Return (Emit (EvMessage (mkMessage C U Tx))), s)
  ∧ next_ (Suspended (JDict d :: rest)) s
    = (Yield (Some (EvMessage (mkMessage C U Tx))), Suspended rest,
       record (Yielded (Some (EvMessage (mkMessage C U Tx)))) s).
Proof.
  intros Ht Hs Hc Hu Hx.
  assert (Hh : handle_event (JDict d) s
               = (Return (Emit (EvMessage (mkMessage C U Tx))), s)).
  { unfold handle_event, bind, get_, ret, load. simpl.
    rewrite Ht, Hs. simpl. unfold Load.field. by rewrite Hc, Hu, Hx. }
  split; [done|]. simpl. by rewrite Hh.
Qed.

(** X10. An envelope of kind [user_typing] with string [channel] and
    [user] is handed to the consumer as UserTyping; the instance is
    unchanged. *)
Theorem user_typing_emitted (s : Slack T) (d : gmap string json)
    (C U : string) (rest : list json) :
  d !! "type" = Some (JStr "user_typing") →
  d !! "channel" = Some (JStr C) →
  d !! "user" = Some (JStr U) →
  handle_event (JDict d) s = (Return (Emit (EvUserTyping (mkUserTyping C U))), s)
  ∧ next_ (Suspended (JDict d :: rest)) s
    = (Yield (Some (EvUserTyping (mkUserTyping C U))), Suspended rest,
       record (Yielded (Some (EvUserTyping (mkUserTyping C U)))) s).
Proof.
  intros Ht Hc Hu.
  assert (Hh : handle_event (JDict d) s
               = (Return (Emit (EvUserTyping (mkUserTyping C U))), s)).
  { unfold handle_event, bind, get_, ret, load. simpl.
    rewrite Ht. simpl. unfold Load.field. by rewrite Hc, Hu. }
  split; [done|]. simpl. by rewrite Hh.
Qed.

(** X11. An envelope of kind [file_deleted] with a string [file_id] is
    handed over as FileDeleted: with the empty list of channels when
    it has no [channel_ids] entry, with the listed ids when that entry
    is a list of strings. *)
Theorem file_deleted_emitted (s : Slack T) (d : gmap string json)
    (F : string) (ids : list string) :
  d !! "type" = Some (JStr "file_deleted") →
  d !! "file_id" = Some (JStr F) →
  (d !! "channel_ids" = None →
     handle_event (JDict d) s
     = (Return (Emit (EvFileDeleted (mkFileDeleted F []))), s))
  ∧ (d !! "channel_ids" = Some (JList (JStr <$> ids)) →
     handle_event (JDict d) s
     = (Return (Emit (EvFileDeleted (mkFileDeleted F ids))), s)).
Proof.
  intros Ht Hf.
  split; intros Hc; unfold handle_event, bind, get_, ret, load; simpl;
    rewrite Ht; simpl; unfold Load.field, Load.field_default; rewrite Hf, Hc; simpl.
  - done.
  - pose proof (list_of_str ids) as Hl. unfold Load.list_of in Hl. by rewrite Hl.
Qed.

(** X12. An envelope of kind [channel_marked], [group_marked] or
    [hello] is passed over in silence: nothing is yielded, nothing is
    printed, the instance is unchanged and the loop goes on with the
    next envelope. *)
Theorem useless_envelope_skipped (s : Slack T) (d : gmap string json)
    (k : string) (rest : list json) :
  d !! "type" = Some (JStr k) →
  k = "channel_marked" ∨ k = "group_marked" ∨ k = "hello" →
  handle_event (JDict d) s = (Return Quiet, s)
  ∧ next_ (Suspended (JDict d :: rest)) s = next_ (Suspended rest) s.
Proof.
  intros Ht Hk.
  assert (Hh : handle_event (JDict d) s = (Return Quiet, s)).
  { unfold handle_event, bind, get_, ret. simpl. rewrite Ht.
    by destruct Hk as [->|[->| ->]]. }
  split; [done|]. simpl. by rewrite Hh.
Qed.


(** X13. An envelope with no [type], or with a string [type] that is
    none of the seven kinds the loop knows, never fails the stream: it
    is printed, nothing is yielded for it, and the loop goes on with
    the next envelope. *)
Theorem unknown_kind_printed (s : Slack T) (d : gmap string json) (rest : list json) :
  (d !! "type" = None
   ∨ ∃ k, d !! "type" = Some (JStr k)
        ∧ k ∉ ["message"; "user_typing"; "user_change"; "file_deleted";
               "channel_marked"; "group_marked"; "hello"]) →
  handle_event (JDict d) s = (Return Quiet, record (Printed (JDict d)) s)
  ∧ next_ (Suspended (JDict d :: rest)) s
    = next_ (Suspended rest) (record (Printed (JDict d)) s).
Proof.
  intros Hk.
  assert (Hh : handle_event (JDict d) s
               = (Return Quiet, record (Printed (JDict d)) s)).
  { unfold handle_event, bind, get_, ret. simpl.
    destruct Hk as [->|(k & -> & Hk)]; [done|].
    unfold useless.
    rewrite !eq_str_other; [done|..]; intros ->; apply Hk;
      repeat first [ apply list_elem_of_here | apply list_elem_of_further ]. }
  split; [done|]. simpl. by rewrite Hh.
Qed.

(** X14. An envelope of kind [message] with a non-empty string subtype
    other than [message_changed] and [message_deleted] (a bot message,
    a join) is not delivered: it is printed and the loop goes on. *)
Theorem other_subtype_dropped (s : Slack T) (d : gmap string json)
    (st : string) (rest : list json) :
  d !! "type" = Some (JStr "message") →
  d !! "subtype" = Some (JStr st) →
  st ≠ "" → st ≠ "message_changed" → st ≠ "message_deleted" →
  handle_event (JDict d) s = (Return Quiet, record (Printed (JDict d)) s)
  ∧ next_ (Suspended (JDict d :: rest)) s
    = next_ (Suspended rest) (record (Printed (JDict d)) s).
Proof.
  intros Ht Hs H0 H1 H2.
  assert (Hh : handle_event (JDict d) s
               = (Return Quiet, record (Printed (JDict d)) s)).
  { apply String.eqb_neq in H0, H1, H2.
    unfold handle_event, bind, get_, ret. simpl. rewrite Ht, Hs.
    cbn [eq_str truthy_opt truthy]. rewrite H0, H1, H2. done. }
  split; [done|]. simpl. by rewrite Hh.
Qed.

(** X15. An envelope whose [type] is a list or a dictionary ends the
    stream: the membership test [t in {...}] cannot hash it and raises
    [TypeError]. *)
Theorem unhashable_kind_ends_stream (s : Slack T) (d : gmap string json)
    (t : json) (rest : list json) :
  d !! "type" = Some t →
  (∃ l, t = JList l) ∨ (∃ m, t = JDict m) →
  next_ (Suspended (JDict d :: rest)) s = (Raises TypeError, Finished, s).
Proof.
  intros Ht Hk.
  assert (Hh : handle_event (JDict d) s = (Raise TypeError, s)).
  { unfold handle_event, bind, get_, ret. simpl. rewrite Ht.
    by destruct Hk as [[l ->]|[m ->]]. }
  simpl. by rewrite Hh.
Qed.

(** X16. A [message_changed] envelope that lacks its [channel], its
    [message] or its [previous_message] ends the stream with the
    [KeyError] of the first missing entry, in this order; the
    envelopes after it in the batch are never handled. *)
Theorem malformed_edit_ends_stream (s : Slack T) (d : gmap string json)
    (rest : list json) :
  d !! "type" = Some (JStr "message") →
  d !! "subtype" = Some (JStr "message_changed") →
  (d !! "channel" = None →
     next_ (Suspended (JDict d :: rest)) s
     = (Raises (KeyError (ArgKey "channel")), Finished, s))
  ∧ (∀ c, d !! "channel" = Some c → d !! "message" = None →
     next_ (Suspended (JDict d :: rest)) s
     = (Raises (KeyError (ArgKey "message")), Finished, s))
  ∧ (∀ c dm, d !! "channel" = Some c → d !! "message" = Some (JDict dm) →
     d !! "previous_message" = None →
     next_ (Suspended (JDict d :: rest)) s
     = (Raises (KeyError (ArgKey "previous_message")), Finished, s)).
Proof.
  intros Ht Hs.
  assert (Hn : ∀ e, handle_event (JDict d) s = (Raise e, s) →
            next_ (Suspended (JDict d :: rest)) s = (Raises e, Finished, s)).
  { intros e Hh. simpl. by rewrite Hh. }
  split; [|split].
  - intros Hc. apply Hn.
    unfold handle_event, bind, get_, ret, subscript. simpl.
    rewrite Ht, Hs. simpl. by rewrite Hc.
  - intros c Hc Hm. apply Hn.
    unfold handle_event, bind, get_, ret, subscript, setitem_nested. simpl.
    rewrite Ht, Hs. simpl. rewrite Hc. unfold bind, subscript. by rewrite Hm.
  - intros c dm Hc Hm Hp. apply Hn.
    unfold handle_event, bind, get_, ret, subscript, setitem_nested. simpl.
    rewrite Ht, Hs. simpl. rewrite Hc. unfold bind, subscript, ret.
    rewrite Hm. simpl. dict. rewrite Hc. unfold bind. dict. by rewrite Hp.
Qed.


Lemma load_str_inv (j : json) (x : string) : Load.str j = Some x → j = JStr x.
Proof. destruct j; simpl; try done. by intros [= ->]. Qed.

Lemma load_message_inv (dd : gmap string json) (m : Message) :
  Load.message (JDict dd) = Some m →
  dd !! "channel" = Some (JStr (channel m))
  ∧ dd !! "user" = Some (JStr (user m))
  ∧ dd !! "text" = Some (JStr (text m)).
Proof.
  unfold Load.message, Load.field.
  destruct (dd !! "channel") as [c|]; [|done].
  destruct (dd !! "user") as [u|]; simpl; [|by destruct (Load.str c)].
  destruct (dd !! "text") as [t|]; simpl;
    [|by destruct (Load.str c), (Load.str u)].
  destruct (Load.str c) as [c'|] eqn:Ec; [|done].
  destruct (Load.str u) as [u'|] eqn:Eu; [|done].
  destruct (Load.str t) as [t'|] eqn:Et; [|done].
  simpl. intros [= <-]. simpl.
  by rewrite (load_str_inv _ _ Ec), (load_str_inv _ _ Eu), (load_str_inv _ _ Et).
Qed.

Lemma bind_inv {A B} (m : M T A) (k : A → M T B) (s : Slack T) (b : B) s' :
  bind m k s = (Return b, s') →
  ∃ a s1, m s = (Return a, s1) ∧ k a s1 = (Return b, s').
Proof.
  unfold bind. destruct (m s) as [[a|e] s1]; [|done]. intros Hk. by exists a, s1.
Qed.

Lemma subscript_inv (raw : json) (key : string) (s : Slack T) (v : json) s' :
  subscript raw key s = (Return v, s') →
  s' = s ∧ ∃ dd, raw = JDict dd ∧ dd !! key = Some v.
Proof.
  unfold subscript. destruct raw as [| | | | |dd]; try done.
  destruct (dd !! key) as [x|] eqn:E; [|done].
  intros [= <- <-]. split; [done|]. by exists dd.
Qed.

Lemma load_inv {A} (f : json → option A) (raw : json) (s : Slack T) (a : A) s' :
  load f raw s = (Return a, s') → s' = s ∧ f raw = Some a.
Proof. unfold load. destruct (f raw); [|done]. by intros [= <- <-]. Qed.

Lemma setitem_nested_inv (event : json) (outer inner : string) (v : json)
    (s : Slack T) (event' : json) s' :
  setitem_nested event outer inner v s = (Return event', s') →
  s' = s ∧ ∃ d dn, event = JDict d ∧ d !! outer = Some (JDict dn)
    ∧ event' = JDict (<[outer := JDict (<[inner := v]> dn)]> d).
Proof.
  unfold setitem_nested. intros Hb.
  apply bind_inv in Hb as (nested & s1 & Hsub & Hk).
  apply subscript_inv in Hsub as (-> & dd & -> & Hl).
  destruct nested as [| | | | |dn]; try done.
  injection Hk as <- <-. split; [done|]. by exists dd, dn.
Qed.

Ltac nope := let Hq := fresh in intros Hq; simpl in Hq; discriminate Hq.

(** X17. Whatever an envelope is, an event is only ever handed over for
    the kind it belongs to, and handing it over leaves the instance
    unchanged: a Message for kind [message] without a true subtype; a
    MessageEdit for subtype [message_changed], both of whose messages
    carry the channel id of the envelope; a MessageDelete for subtype
    [message_deleted], carrying the channel id of the envelope; a
    UserTyping for [user_typing]; a FileDeleted for [file_deleted]. *)
Theorem emitted_kind (s : Slack T) (d : gmap string json) (e : SlackEvent) (s' : Slack T) :
  handle_event (JDict d) s = (Return (Emit e), s') →
  s' = s ∧
  match e with
  | EvMessage m =>
      d !! "type" = Some (JStr "message")
      ∧ truthy_opt (d !! "subtype") = false
      ∧ Load.message (JDict d) = Some m
  | EvMessageEdit ed =>
      d !! "type" = Some (JStr "message")
      ∧ d !! "subtype" = Some (JStr "message_changed")
      ∧ d !! "channel" = Some (JStr (channel (current ed)))
      ∧ channel (previous ed) = channel (current ed)
  | EvMessageDelete md =>
      d !! "type" = Some (JStr "message")
      ∧ d !! "subtype" = Some (JStr "message_deleted")
      ∧ d !! "channel" = Some (JStr (channel (deleted md)))
  | EvUserTyping u =>
      d !! "type" = Some (JStr "user_typing")
      ∧ Load.user_typing (JDict d) = Some u
  | EvFileDeleted f =>
      d !! "type" = Some (JStr "file_deleted")
      ∧ Load.file_deleted (JDict d) = Some f
  end.
Proof.
  intros Hh.
  split; [by apply (handle_event_effect _ _ _ _ Hh) with e|].
  revert Hh. unfold handle_event. unfold bind at 1. unfold get_ at 1. cbv [ret].
  unfold bind at 1. unfold get_ at 1. cbv [ret].
  destruct (eq_str (d !! "type") "message") eqn:Etm.
  - pose proof (eq_str_true _ _ Etm) as Ht.
    destruct (truthy_opt (d !! "subtype")) eqn:Ets; cbn [andb negb].
    + destruct (eq_str (d !! "subtype") "message_changed") eqn:Ech.
      * pose proof (eq_str_true _ _ Ech) as Hs. intros Hb.
        apply bind_inv in Hb as (c & s1 & Hc & Hb).
        apply subscript_inv in Hc as (-> & d0 & [= <-] & Hc).
        apply bind_inv in Hb as (ev1 & s1 & Hset1 & Hb).
        apply setitem_nested_inv in Hset1 as (-> & d0 & dm & [= <-] & Hm & ->).
        apply bind_inv in Hb as (c' & s1 & Hc' & Hb).
        apply subscript_inv in Hc' as (-> & d0 & [= <-] & Hc').
        rewrite lookup_insert_ne in Hc' by discriminate.
        rewrite Hc in Hc'. injection Hc' as <-.
        apply bind_inv in Hb as (ev2 & s1 & Hset2 & Hb).
        apply setitem_nested_inv in Hset2 as (-> & d0 & dp & [= <-] & Hp & ->).
        apply bind_inv in Hb as (rp & s1 & Hrp & Hb).
        apply subscript_inv in Hrp as (-> & d0 & [= <-] & Hrp).
        rewrite lookup_insert_eq in Hrp. injection Hrp as <-.
        apply bind_inv in Hb as (p & s1 & Hlp & Hb).
        apply load_inv in Hlp as (-> & Hlp).
        apply bind_inv in Hb as (rc & s1 & Hrc & Hb).
        apply subscript_inv in Hrc as (-> & d0 & [= <-] & Hrc).
        rewrite lookup_insert_ne, lookup_insert_eq in Hrc by discriminate.
        injection Hrc as <-.
        apply bind_inv in Hb as (m & s1 & Hlm & Hb).
        apply load_inv in Hlm as (-> & Hlm).
        injection Hb as <- <-. simpl.
        apply load_message_inv in Hlp as (Hpc & _).
        apply load_message_inv in Hlm as (Hmc & _).
        rewrite lookup_insert_eq in Hpc, Hmc.
        injection Hpc as Hpc. injection Hmc as Hmc.
        repeat split; congruence.
      * destruct (eq_str (d !! "subtype") "message_deleted") eqn:Edl.
        -- pose proof (eq_str_true _ _ Edl) as Hs. intros Hb.
           apply bind_inv in Hb as (c & s1 & Hc & Hb).
           apply subscript_inv in Hc as (-> & d0 & [= <-] & Hc).
           apply bind_inv in Hb as (ev1 & s1 & Hset1 & Hb).
           apply setitem_nested_inv in Hset1 as (-> & d0 & dp & [= <-] & Hp & ->).
           apply bind_inv in Hb as (rp & s1 & Hrp & Hb).
           apply subscript_inv in Hrp as (-> & d0 & [= <-] & Hrp).
           rewrite lookup_insert_eq in Hrp. injection Hrp as <-.
           apply bind_inv in Hb as (md & s1 & Hlp & Hb).
           apply load_inv in Hlp as (-> & Hlp).
           injection Hb as <- <-. simpl.
           unfold Load.message_delete in Hlp.
           destruct (Load.message (JDict (<["channel":=c]> dp))) as [p|] eqn:Elp;
             [|done].
           injection Hlp as <-. simpl.
           apply load_message_inv in Elp as (Hpc & _).
           rewrite lookup_insert_eq in Hpc. injection Hpc as Hpc.
           repeat split; congruence.
        -- rewrite Ht. simpl. intros Hq. discriminate Hq.
    + unfold bind, load, ret, raise.
      destruct (Load.message (JDict d)) as [m|] eqn:El; [|nope].
      by intros [= <- <-].
  - cbn [andb].
    destruct (eq_str (d !! "type") "user_typing") eqn:Ety.
    { pose proof (eq_str_true _ _ Ety) as Ht. unfold bind, load, ret, raise.
      destruct (Load.user_typing (JDict d)) as [u|] eqn:El; [|nope].
      by intros [= <- <-]. }
    destruct (eq_str (d !! "type") "user_change") eqn:Euc.
    { unfold bind, subscript, load, ret, raise.
      destruct (d !! "user") as [raw|]; [|nope].
      destruct (Load.user raw) as [u|]; [|nope].
      destruct (_usercache s !! u_id u); nope. }
    destruct (eq_str (d !! "type") "file_deleted") eqn:Efd.
    { pose proof (eq_str_true _ _ Efd) as Ht. unfold bind, load, ret, raise.
      destruct (Load.file_deleted (JDict d)) as [f|] eqn:El; [|nope].
      by intros [= <- <-]. }
    destruct (negb (hashable (d !! "type"))); [nope|].
    destruct (useless (d !! "type")); nope.
Qed.


(** ** Users and sending *)

Lemma get_user_stores (s : Slack T) (i : string) r c resp u :
  _usercache s !! i = None →
  api_call "users.info" {[ "user" := JStr i ]} (client s) = (r, c) →
  Load.response r = Some resp → ok resp = true →
  user_of r = Some u →
  get_user i s
  = (Return u,
     set_usercache (<[i := u]> (_usercache s))
       (record (ApiCall "users.info" {[ "user" := JStr i ]}) (set_client c s))).
Proof.
  intros Em Ha Hr Ho Hu. unfold get_user. rewrite Em.
  unfold bind, do_api_call, load, subscript. rewrite Ha, Hr. cbv [ret]. rewrite Ho.
  destruct r as [| | | | |dr]; try done. simpl in Hu.
  destruct (dr !! "user") as [raw|]; [|done]. simpl in Hu. by rewrite Hu.
Qed.

(** X6. For an id that the user table does not hold and a [users.info]
    response with [ok = true] whose [user] decodes to [u]: each of
    [n + 1] calls of [get_user] returns [u]; only the first one calls
    the transport, once; [u] is stored under the id asked for, and the
    memoisation tables are untouched. *)
Theorem get_user_round_trip (s : Slack T) (i : string) r c resp u (n : nat) :
  _usercache s !! i = None →
  api_call "users.info" {[ "user" := JStr i ]} (client s) = (r, c) →
  Load.response r = Some resp → ok resp = true →
  user_of r = Some u →
  ∃ s', repeat_call (S n) (get_user i) s = (replicate (S n) (Return u), s')
    ∧ trace s' = trace s ++ [ApiCall "users.info" {[ "user" := JStr i ]}]
    ∧ _usercache s' = <[i := u]> (_usercache s)
    ∧ same_tables s s'.
Proof.
  intros Em Ha Hr Ho Hu.
  eexists. split.
  - simpl. rewrite (get_user_stores s i r c resp u Em Ha Hr Ho Hu).
    rewrite (repeat_call_fixed (get_user i) _ (Return u) n); [done|].
    apply get_user_hit. simpl. apply lookup_insert_eq.
  - done.
Qed.

(** X7. When the [users.info] response reports [ok = false],
    [get_user] raises [KeyError] with the response after that one call
    and stores nothing: the next call for the same id asks the
    transport again. *)
Theorem get_user_refusal_not_stored (s : Slack T) (i : string) r c resp :
  _usercache s !! i = None →
  api_call "users.info" {[ "user" := JStr i ]} (client s) = (r, c) →
  Load.response r = Some resp → ok resp = false →
  ∃ s', get_user i s = (Raise (KeyError (ArgResponse resp)), s')
    ∧ _usercache s' = _usercache s
    ∧ trace s' = trace s ++ [ApiCall "users.info" {[ "user" := JStr i ]}]
    ∧ ∀ r' s'', get_user i s' = (r', s'') →
        trace s'' = trace s' ++ [ApiCall "users.info" {[ "user" := JStr i ]}].
Proof.
  intros Em Ha Hr Ho.
  eexists. split; [|split; [|split]].
  - unfold get_user. rewrite Em.
    unfold bind, do_api_call, load. rewrite Ha, Hr. cbv [ret]. by rewrite Ho.
  - done.
  - done.
  - intros r' s''. by apply get_user_miss.
Qed.

Lemma send_message_frame (s : Slack T) (ch msg : string) r s' :
  send_message ch msg s = (r, s') →
  trace s' = trace s ++ [ApiCall "chat.postMessage" (post_kwargs ch msg)]
  ∧ _usercache s' = _usercache s
  ∧ same_tables s s'.
Proof.
  unfold send_message, bind, do_api_call, load, ret, raise.
  fold (post_kwargs ch msg).
  destruct (api_call _ _ _) as [j c0].
  destruct (Load.response j) as [resp|]; [|by intros [= <- <-]].
  destruct (ok resp); by intros [= <- <-].
Qed.

(** X8. [send_message] is not memoised: [n] calls with the same
    arguments make [n] [chat.postMessage] calls, each with the channel,
    the text and [as_user = True], whatever the responses are; the user
    table and the memoisation tables are untouched. *)
Theorem send_message_never_memoised (s : Slack T) (ch msg : string) (n : nat) :
  ∀ rs s', repeat_call n (send_message ch msg) s = (rs, s') →
    trace s' = trace s ++ replicate n (ApiCall "chat.postMessage" (post_kwargs ch msg))
    ∧ api_calls "chat.postMessage" (trace s')
      = api_calls "chat.postMessage" (trace s) + n
    ∧ _usercache s' = _usercache s
    ∧ same_tables s s'.
Proof.
  revert s. induction n as [|n IH]; intros s rs s'; simpl.
  - intros [= <- <-]. rewrite app_nil_r. repeat split; lia.
  - destruct (send_message ch msg s) as [r s1] eqn:E1.
    destruct (repeat_call n (send_message ch msg) s1) as [rs' s2] eqn:E2.
    intros [= <- <-].
    apply send_message_frame in E1 as (Ht1 & Hu1 & (H1 & H2 & H3)).
    destruct (IH _ _ _ E2) as (Ht2 & Hc2 & Hu2 & (H1' & H2' & H3')).
    split; [by rewrite Ht2, Ht1, <- app_assoc|].
    split.
    { rewrite Hc2, Ht1. unfold api_calls. rewrite filter_app, length_app. simpl. lia. }
    split; [congruence|]. repeat split; congruence.
Qed.


(** ** The listing, when a fetch goes wrong *)

(** X4. When the [channels.list] fetch reports [ok = false], [channels]
    raises at once: [channels.list] is the only call made, and
    [groups.list] is not called. *)
Theorem channels_stops_at_first_refusal (s : Slack T) r1 c1 resp1 :
  channels_cache s = [] →
  api_call "channels.list" exclude_archived (client s) = (r1, c1) →
  Load.response r1 = Some resp1 → ok resp1 = false →
  ∃ s', channels s = (Raise (ResponseException (ArgResponse resp1)), s')
    ∧ trace s' = trace s ++ [ApiCall "channels.list" exclude_archived]
    ∧ client s' = c1
    ∧ api_calls "groups.list" (trace s') = api_calls "groups.list" (trace s).
Proof.
  intros E Ha Hr Ho. rewrite channels_miss by done. unfold channels_body, bind.
  rewrite (fetch_collection_not_ok _ _ _ _ _ _ Ha Hr Ho).
  eexists. split; [done|]. split; [done|]. split; [done|].
  simpl. unfold api_calls. rewrite filter_app, length_app. simpl. lia.
Qed.

(** X5. When the [channels.list] response reports [ok = true] and has
    no [channels] entry, [channels] raises [KeyError('channels')] after
    that one call and memoises nothing. *)
Theorem channels_missing_collection (s : Slack T) (d1 : gmap string json) c1 resp1 :
  channels_cache s = [] →
  api_call "channels.list" exclude_archived (client s) = (JDict d1, c1) →
  Load.response (JDict d1) = Some resp1 → ok resp1 = true →
  d1 !! "channels" = None →
  ∃ s', channels s = (Raise (KeyError (ArgKey "channels")), s')
    ∧ channels_cache s' = []
    ∧ trace s' = trace s ++ [ApiCall "channels.list" exclude_archived].
Proof.
  intros E Ha Hr Ho Hk. rewrite channels_miss by done.
  unfold channels_body, bind at 1.
  assert (Hf : fetch_collection "channels.list" "channels" s
               = (Raise (KeyError (ArgKey "channels")),
                  record (ApiCall "channels.list" exclude_archived) (set_client c1 s))).
  { unfold fetch_collection, bind, do_api_call, load, subscript.
    rewrite Ha, Hr. cbv [ret]. by rewrite Ho, Hk. }
  rewrite Hf. eexists. split; [done|]. by split.
Qed.

(** X3. On a reachable instance, when [channels] raises, a lookup by id
    or by name raises the same exception and leaves the same state:
    the three tables are empty afterwards, so the failure is not
    remembered by any of them. *)
Theorem lookup_propagates_listing_failure (s : Slack T) (e : exn) (s1 : Slack T) :
  reachable s →
  channels s = (Raise e, s1) →
  (∀ i, get_channel i s = (Raise e, s1))
  ∧ (∀ n, get_channel_by_name n s = (Raise e, s1))
  ∧ channels_cache s1 = []
  ∧ get_channel_cache s1 = []
  ∧ get_channel_by_name_cache s1 = [].
Proof.
  intros Hr Ech. apply reachable_coherent in Hr.
  destruct (channels_coherent _ _ _ Hr Ech) as (Hc1 & Hg & Hn & _).
  unfold coherent in Hr.
  destruct (channels_cache s) as [|[[] l] [|]] eqn:E; [| |done].
  - destruct Hr as [Hg0 Hn0].
    assert (Hcc : channels_cache s1 = []).
    { rewrite channels_miss in Ech by done.
      destruct (channels_body () s) as [[l|e0] s0] eqn:Eb; [done|].
      injection Ech as -> <-.
      apply channels_body_frame in Eb as (_ & _ & _ & Hcc & _). congruence. }
    split; [|split; [|split; [done|split; congruence]]].
    + intros i. unfold get_channel, lru_cache. rewrite Hg0. simpl.
      unfold get_channel_body, bind. by rewrite Ech.
    + intros n. unfold get_channel_by_name, lru_cache. rewrite Hn0. simpl.
      unfold get_channel_by_name_body, bind. by rewrite Ech.
  - by rewrite (channels_hit s l E) in Ech.
Qed.


(** ** Lookups that find their channel *)

Lemma scan_first_match (key : Channel → string) (x : string) (l : list Channel)
    (s : Slack T) :
  scan key x l s
  = (match first_match key x l with
     | Some c => Return c
     | None => Raise (KeyError NoArg)
     end, s).
Proof.
  unfold first_match. induction l as [|a l IH]; simpl; [done|].
  by destruct (String.eqb (key a) x).
Qed.

Lemma first_match_found (key : Channel → string) (x : string) (l : list Channel) c :
  first_match key x l = Some c → key c = x ∧ c ∈ l.
Proof.
  unfold first_match. intros Hf. apply find_some in Hf as [Hin Hk].
  apply String.eqb_eq in Hk. split; [done|]. by apply list_elem_of_In.
Qed.

Lemma lru_find_faithful (key : Channel → string) (l : list Channel)
    (c : list (string * Channel)) (k : string) (v : Channel) :
  faithful key l c → lru_find k c = Some v → first_match key k l = Some v.
Proof.
  unfold lru_find. intros Hk Hf.
  destruct (List.find _ c) as [[k' v']|] eqn:E; [|done].
  simpl in Hf. injection Hf as ->.
  apply find_some in E as [Hin Hb]. simpl in Hb.
  apply bool_decide_eq_true_1 in Hb. subst k'.
  unfold faithful in Hk. rewrite Forall_forall in Hk.
  apply (Hk (k, v)). by apply list_elem_of_In.
Qed.

Lemma faithful_hit key l (c : list (string * Channel)) k v :
  faithful key l c → lru_find k c = Some v → faithful key l (lru_hit k v c).
Proof.
  intros Hk Hf. unfold lru_hit, faithful.
  apply Forall_cons. split; [by eapply lru_find_faithful|].
  unfold faithful in Hk. rewrite Forall_forall in Hk. apply Forall_forall.
  intros x Hx. apply Hk. apply list_elem_of_In in Hx.
  apply filter_In in Hx as [Hx _]. by apply list_elem_of_In.
Qed.

Lemma faithful_store key l (c : list (string * Channel)) k v :
  faithful key l c → first_match key k l = Some v → faithful key l (lru_store k v c).
Proof.
  intros Hk Hf. unfold lru_store, faithful. apply Forall_take. by apply Forall_cons.
Qed.

Lemma lru_find_store {V} (k : string) (v : V) (c : list (string * V)) :
  lru_find k (lru_store k v c) = Some v.
Proof. unfold lru_find, lru_store. simpl. by rewrite bool_decide_eq_true_2. Qed.

Lemma lru_find_hit {V} (k : string) (v : V) (c : list (string * V)) :
  lru_find k (lru_hit k v c) = Some v.
Proof. unfold lru_find, lru_hit. simpl. by rewrite bool_decide_eq_true_2. Qed.

Lemma channels_memo_sound (s : Slack T) res s' :
  memo_sound s → channels s = (res, s') →
  memo_sound s'
  ∧ get_channel_cache s' = get_channel_cache s
  ∧ get_channel_by_name_cache s' = get_channel_by_name_cache s
  ∧ (∀ l, res = Return l → channels_cache s' = [((), l)])
  ∧ (channels_cache s ≠ [] → s' = s).
Proof.
  unfold memo_sound. intros Hc.
  destruct (channels_cache s) as [|[[] l] [|]] eqn:E; [| |done].
  - rewrite channels_miss by done.
    destruct (channels_body () s) as [r0 s0] eqn:Eb.
    apply channels_body_frame in Eb as (_ & _ & _ & Hcc & Hg & Hn).
    destruct Hc as [Hg0 Hn0].
    destruct r0 as [l|e]; intros [= <- <-]; simpl.
    + rewrite Hg, Hn, Hg0, Hn0. unfold faithful.
      split; [by split|]. split; [done|]. split; [done|].
      split; [|done]. by intros ? [= ->].
    + rewrite Hcc, E, Hg, Hn. done.
  - rewrite (channels_hit s l E). intros [= <- <-]. rewrite E.
    split; [done|]. split; [done|]. split; [done|].
    split; [|done]. by intros ? [= ->].
Qed.

Lemma get_channel_memo_sound (s : Slack T) i r s' :
  memo_sound s → get_channel i s = (r, s') → memo_sound s'.
Proof.
  intros Hc. unfold get_channel, lru_cache.
  destruct (lru_find i (get_channel_cache s)) as [v|] eqn:Ef.
  - intros [= <- <-]. unfold memo_sound in *. simpl.
    destruct (channels_cache s) as [|[[] l] [|]]; [|
      split; [by apply faithful_hit; [apply Hc|]|apply Hc] | done].
    destruct Hc as [Hg _]. by rewrite Hg in Ef.
  - unfold get_channel_body, bind.
    destruct (channels s) as [[l|e] s1] eqn:Ech;
      destruct (channels_memo_sound _ _ _ Hc Ech) as (Hc1 & Hg & Hn & Hcc & _).
    + rewrite scan_first_match.
      destruct (first_match id i l) as [c|] eqn:Efm; intros [= <- <-]; [|done].
      unfold memo_sound in *. simpl. rewrite (Hcc l eq_refl) in *.
      split; [by apply faithful_store; [apply Hc1|]|apply Hc1].
    + by intros [= <- <-].
Qed.

Lemma get_channel_by_name_memo_sound (s : Slack T) n r s' :
  memo_sound s → get_channel_by_name n s = (r, s') → memo_sound s'.
Proof.
  intros Hc. unfold get_channel_by_name, lru_cache.
  destruct (lru_find n (get_channel_by_name_cache s)) as [v|] eqn:Ef.
  - intros [= <- <-]. unfold memo_sound in *. simpl.
    destruct (channels_cache s) as [|[[] l] [|]]; [|
      split; [apply Hc|by apply faithful_hit; [apply Hc|]] | done].
    destruct Hc as [_ Hn]. by rewrite Hn in Ef.
  - unfold get_channel_by_name_body, bind.
    destruct (channels s) as [[l|e] s1] eqn:Ech;
      destruct (channels_memo_sound _ _ _ Hc Ech) as (Hc1 & Hg & Hn & Hcc & _).
    + rewrite scan_first_match.
      destruct (first_match name n l) as [c|] eqn:Efm; intros [= <- <-]; [|done].
      unfold memo_sound in *. simpl. rewrite (Hcc l eq_refl) in *.
      split; [apply Hc1|by apply faithful_store; [apply Hc1|]].
    + by intros [= <- <-].
Qed.

Lemma memo_sound_same_tables (s s' : Slack T) :
  same_tables s s' → memo_sound s → memo_sound s'.
Proof. intros (H1 & H2 & H3). unfold memo_sound. by rewrite H1, H2, H3. Qed.

Lemma reachable_memo_sound (s : Slack T) : reachable s → memo_sound s.
Proof.
  intros [c0 Hev].
  induction Hev as [|s _ IH|s i _ IH|s n _ IH|s i _ IH|s c m _ IH|g s _ IH].
  - by split.
  - destruct (channels s) as [r s'] eqn:E. simpl.
    by destruct (channels_memo_sound _ _ _ IH E).
  - destruct (get_channel i s) as [r s'] eqn:E. simpl.
    by eapply get_channel_memo_sound.
  - destruct (get_channel_by_name n s) as [r s'] eqn:E. simpl.
    by eapply get_channel_by_name_memo_sound.
  - destruct (get_user i s) as [r s'] eqn:E. simpl.
    eapply memo_sound_same_tables; [by eapply get_user_same_tables|done].
  - destruct (send_message c m s) as [r s'] eqn:E. simpl.
    eapply memo_sound_same_tables; [by eapply send_message_same_tables|done].
  - destruct (next_ g s) as [[o g'] s'] eqn:E. simpl.
    eapply memo_sound_same_tables; [by eapply next_same_tables|done].
Qed.

(** With the listing stored, a lookup gives what the loop over the
    listing gives, and touches nothing but its own table. *)
Lemma get_channel_step (s : Slack T) (l : list Channel) (i : string) :
  memo_sound s → channels_cache s = [((), l)] →
  ∃ s', get_channel i s
        = (match first_match id i l with
           | Some c => Return c
           | None => Raise (KeyError NoArg)
           end, s')
    ∧ memo_sound s' ∧ channels_cache s' = [((), l)]
    ∧ trace s' = trace s ∧ client s' = client s ∧ _usercache s' = _usercache s
    ∧ get_channel_by_name_cache s' = get_channel_by_name_cache s.
Proof.
  intros Hm E.
  destruct (get_channel i s) as [r s'] eqn:Eg.
  pose proof (get_channel_memo_sound _ _ _ _ Hm Eg) as Hm'.
  exists s'. revert Eg. unfold get_channel, lru_cache.
  destruct (lru_find i (get_channel_cache s)) as [v|] eqn:Ef.
  - intros [= <- <-]. unfold memo_sound in Hm. rewrite E in Hm.
    rewrite (lru_find_faithful id l _ i v (proj1 Hm) Ef).
    split; [done|]. by simpl.
  - unfold get_channel_body, bind. rewrite (channels_hit s l E).
    rewrite scan_first_match.
    destruct (first_match id i l) as [c|]; intros [= <- <-]; split; try done;
      by simpl.
Qed.

Lemma get_channel_by_name_step (s : Slack T) (l : list Channel) (n : string) :
  memo_sound s → channels_cache s = [((), l)] →
  ∃ s', get_channel_by_name n s
        = (match first_match name n l with
           | Some c => Return c
           | None => Raise (KeyError NoArg)
           end, s')
    ∧ memo_sound s' ∧ channels_cache s' = [((), l)]
    ∧ trace s' = trace s ∧ client s' = client s ∧ _usercache s' = _usercache s
    ∧ get_channel_cache s' = get_channel_cache s.
Proof.
  intros Hm E.
  destruct (get_channel_by_name n s) as [r s'] eqn:Eg.
  pose proof (get_channel_by_name_memo_sound _ _ _ _ Hm Eg) as Hm'.
  exists s'. revert Eg. unfold get_channel_by_name, lru_cache.
  destruct (lru_find n (get_channel_by_name_cache s)) as [v|] eqn:Ef.
  - intros [= <- <-]. unfold memo_sound in Hm. rewrite E in Hm.
    rewrite (lru_find_faithful name l _ n v (proj2 Hm) Ef).
    split; [done|]. by simpl.
  - unfold get_channel_by_name_body, bind. rewrite (channels_hit s l E).
    rewrite scan_first_match.
    destruct (first_match name n l) as [c|]; intros [= <- <-]; split; try done;
      by simpl.
Qed.


Lemma get_channel_after_listing (s : Slack T) (l : list Channel) (s1 : Slack T) i :
  memo_sound s → channels s = (Return l, s1) →
  get_channel i s = get_channel i s1.
Proof.
  intros Hm Ech.
  destruct (channels_memo_sound _ _ _ Hm Ech) as (_ & Hg & _ & Hcc & Hsame).
  destruct (channels_cache s) as [|x xs] eqn:E; [|by rewrite Hsame].
  unfold memo_sound in Hm. rewrite E in Hm. destruct Hm as [Hg0 _].
  unfold get_channel, lru_cache. rewrite Hg, Hg0. simpl.
  unfold get_channel_body, bind.
  by rewrite Ech, (channels_hit s1 l (Hcc l eq_refl)).
Qed.

Lemma get_channel_by_name_after_listing (s : Slack T) (l : list Channel)
    (s1 : Slack T) n :
  memo_sound s → channels s = (Return l, s1) →
  get_channel_by_name n s = get_channel_by_name n s1.
Proof.
  intros Hm Ech.
  destruct (channels_memo_sound _ _ _ Hm Ech) as (_ & _ & Hn & Hcc & Hsame).
  destruct (channels_cache s) as [|x xs] eqn:E; [|by rewrite Hsame].
  unfold memo_sound in Hm. rewrite E in Hm. destruct Hm as [_ Hn0].
  unfold get_channel_by_name, lru_cache. rewrite Hn, Hn0. simpl.
  unfold get_channel_by_name_body, bind.
  by rewrite Ech, (channels_hit s1 l (Hcc l eq_refl)).
Qed.

Lemma get_channel_repeat (l : list Channel) (i : string) (n : nat) :
  ∀ s : Slack T, memo_sound s → channels_cache s = [((), l)] →
  ∃ s', repeat_call n (get_channel i) s
        = (replicate n (match first_match id i l with
                        | Some c => Return c
                        | None => Raise (KeyError NoArg)
                        end), s')
    ∧ channels_cache s' = [((), l)]
    ∧ trace s' = trace s ∧ client s' = client s ∧ _usercache s' = _usercache s.
Proof.
  induction n as [|n IH]; intros s Hm E.
  - by exists s.
  - destruct (get_channel_step s l i Hm E)
      as (s1 & Hg & Hm1 & E1 & Ht1 & Hc1 & Hu1 & _).
    destruct (IH s1 Hm1 E1) as (s' & Hr & E' & Ht' & Hc' & Hu').
    exists s'. simpl. rewrite Hg, Hr.
    split; [done|]. split; [done|]. repeat split; congruence.
Qed.

Lemma get_channel_by_name_repeat (l : list Channel) (i : string) (n : nat) :
  ∀ s : Slack T, memo_sound s → channels_cache s = [((), l)] →
  ∃ s', repeat_call n (get_channel_by_name i) s
        = (replicate n (match first_match name i l with
                        | Some c => Return c
                        | None => Raise (KeyError NoArg)
                        end), s')
    ∧ channels_cache s' = [((), l)]
    ∧ trace s' = trace s ∧ client s' = client s ∧ _usercache s' = _usercache s.
Proof.
  induction n as [|n IH]; intros s Hm E.
  - by exists s.
  - destruct (get_channel_by_name_step s l i Hm E)
      as (s1 & Hg & Hm1 & E1 & Ht1 & Hc1 & Hu1 & _).
    destruct (IH s1 Hm1 E1) as (s' & Hr & E' & Ht' & Hc' & Hu').
    exists s'. simpl. rewrite Hg, Hr.
    split; [done|]. split; [done|]. repeat split; congruence.
Qed.

(** X1. On a reachable instance whose channel listing is [l], for an
    id that some channel of [l] has: each of [n + 1] calls of
    [get_channel] returns the first channel of [l] with that id, a
    member of [l]; together they cost the transport what one call of
    [channels] costs, and leave the client and the user table where
    that call leaves them. *)
Theorem get_channel_finds_first (s : Slack T) (l : list Channel) (s1 : Slack T)
    (i : string) (c : Channel) (n : nat) :
  reachable s →
  channels s = (Return l, s1) →
  first_match id i l = Some c →
  id c = i ∧ c ∈ l
  ∧ ∃ s', repeat_call (S n) (get_channel i) s = (replicate (S n) (Return c), s')
      ∧ trace s' = trace s1 ∧ client s' = client s1
      ∧ _usercache s' = _usercache s1
      ∧ channels s' = (Return l, s').
Proof.
  intros Hr Ech Hf. apply reachable_memo_sound in Hr.
  destruct (first_match_found _ _ _ _ Hf) as [Hid Hin].
  split; [done|]. split; [done|].
  destruct (channels_memo_sound _ _ _ Hr Ech) as (Hm1 & _ & _ & Hcc & _).
  destruct (get_channel_repeat l i (S n) s1 Hm1 (Hcc l eq_refl))
    as (s' & Hrep & E' & Ht & Hc & Hu).
  exists s'. rewrite Hf in Hrep.
  split.
  - rewrite <- Hrep. simpl. by rewrite (get_channel_after_listing s l s1 i Hr Ech).
  - repeat (split; [done|]). by apply channels_hit.
Qed.

(** X2. The same for [get_channel_by_name]: the first channel of the
    listing with that name, on every call, at the cost of one call of
    [channels]. *)
Theorem get_channel_by_name_finds_first (s : Slack T) (l : list Channel)
    (s1 : Slack T) (n_ : string) (c : Channel) (n : nat) :
  reachable s →
  channels s = (Return l, s1) →
  first_match name n_ l = Some c →
  name c = n_ ∧ c ∈ l
  ∧ ∃ s', repeat_call (S n) (get_channel_by_name n_) s
          = (replicate (S n) (Return c), s')
      ∧ trace s' = trace s1 ∧ client s' = client s1
      ∧ _usercache s' = _usercache s1
      ∧ channels s' = (Return l, s').
Proof.
  intros Hr Ech Hf. apply reachable_memo_sound in Hr.
  destruct (first_match_found _ _ _ _ Hf) as [Hid Hin].
  split; [done|]. split; [done|].
  destruct (channels_memo_sound _ _ _ Hr Ech) as (Hm1 & _ & _ & Hcc & _).
  destruct (get_channel_by_name_repeat l n_ (S n) s1 Hm1 (Hcc l eq_refl))
    as (s' & Hrep & E' & Ht & Hc & Hu).
  exists s'. rewrite Hf in Hrep.
  split.
  - rewrite <- Hrep. simpl.
    by rewrite (get_channel_by_name_after_listing s l s1 n_ Hr Ech).
  - repeat (split; [done|]). by apply channels_hit.
Qed.


(** ** The event sequence and the rest of the instance *)

Lemma stream_frame_refl (s : Slack T) : stream_frame s s.
Proof.
  split; [done|]. split; [done|]. exists []. by rewrite app_nil_r.
Qed.

Lemma stream_frame_trans (s1 s2 s3 : Slack T) :
  stream_frame s1 s2 → stream_frame s2 s3 → stream_frame s1 s3.
Proof.
  intros ((H1 & H2 & H3) & Hu & ext & Ht & Hf) ((H1' & H2' & H3') & Hu' & ext' & Ht' & Hf').
  split; [repeat split; congruence|]. split; [by etrans|].
  exists (ext ++ ext'). split; [by rewrite Ht', Ht, app_assoc|]. by apply Forall_app.
Qed.

Lemma stream_frame_record (s : Slack T) (a : Action) :
  is_api a = false → stream_frame s (record a s).
Proof.
  intros Ha. split; [done|]. split; [done|]. exists [a]. split; [done|].
  by apply Forall_singleton.
Qed.

Lemma handle_event_stream_frame (event : json) (s : Slack T) r s' :
  handle_event event s = (r, s') → stream_frame s s'.
Proof.
  intros Hh. apply handle_event_effect in Hh as ([->|[->|(k & _ & ->)]] & _).
  - apply stream_frame_refl.
  - by apply stream_frame_record.
  - split; [done|]. split; [apply delete_subseteq|].
    exists []. simpl. by rewrite app_nil_r.
Qed.

Lemma for_loop_stream_frame (events : list json) :
  ∀ (s : Slack T) o g' s', for_loop events s = (o, g', s') → stream_frame s s'.
Proof.
  induction events as [|event rest IH]; intros s o g' s'; simpl.
  - intros [= <- <- <-]. by apply stream_frame_record.
  - destruct (handle_event event s) as [[[e|]|e] s1] eqn:Eh;
      apply handle_event_stream_frame in Eh.
    + intros [= <- <- <-]. eapply stream_frame_trans; [exact Eh|].
      by apply stream_frame_record.
    + intros Hf. eapply stream_frame_trans; [exact Eh|]. by eapply IH.
    + by intros [= <- <- <-].
Qed.

Lemma next_stream_frame (g : GenState) (s : Slack T) o g' s' :
  next_ g s = (o, g', s') → stream_frame s s'.
Proof.
  assert (Hc : ∀ (s0 : Slack T) c, stream_frame s0 (record RtmConnect (set_client c s0))).
  { intros s0 c. split; [done|]. split; [done|]. exists [RtmConnect].
    split; [done|]. by apply Forall_singleton. }
  assert (Hr : ∀ (s0 : Slack T) c, stream_frame s0 (record RtmRead (set_client c s0))).
  { intros s0 c. split; [done|]. split; [done|]. exists [RtmRead].
    split; [done|]. by apply Forall_singleton. }
  assert (Hre : ∀ (s0 : Slack T) r s1, read_events s0 = (r, s1) → stream_frame s0 s1).
  { intros s0 r s1. unfold read_events, do_rtm_read, do_rtm_connect. simpl.
    destruct (rtm_read (client s0)) as [[events|e] c1].
    - intros [= <- <-]. apply Hr.
    - destruct (transport_failure e).
      + simpl. destruct (rtm_connect false c1) as [[|] c2]; intros [= <- <-];
          (eapply stream_frame_trans; [apply (Hr s0 c1)|apply Hc]).
      + intros [= <- <-]. apply Hr. }
  assert (Hw : ∀ s0 : Slack T, while_loop s0 = (o, g', s') → stream_frame s0 s').
  { intros s0. unfold while_loop.
    destruct (read_events s0) as [[events|e] s1] eqn:Er; apply Hre in Er.
    - intros Hf. eapply stream_frame_trans; [exact Er|]. by eapply for_loop_stream_frame.
    - by intros [= <- <- <-]. }
  destruct g as [|rest| |]; simpl.
  - unfold do_rtm_connect. destruct (rtm_connect false (client s)) as [[|] c].
    + intros Hl. eapply stream_frame_trans; [apply (Hc s c)|]. by apply Hw.
    + intros [= <- <- <-]. apply Hc.
  - apply for_loop_stream_frame.
  - apply Hw.
  - intros [= <- <- <-]. apply stream_frame_refl.
Qed.

(** X19. However far a consumer drives an event sequence, from any
    point: the memoisation tables stay as they are, the user table only
    loses entries, and the web API is never called. *)
Theorem events_leave_the_rest_alone (n : nat) :
  ∀ (g : GenState) (s : Slack T) outs g' s',
    consume n g s = (outs, g', s') →
    same_tables s s'
    ∧ _usercache s' ⊆ _usercache s
    ∧ api_calls "channels.list" (trace s') = api_calls "channels.list" (trace s)
    ∧ api_calls "groups.list" (trace s') = api_calls "groups.list" (trace s)
    ∧ api_calls "users.info" (trace s') = api_calls "users.info" (trace s)
    ∧ ∃ ext, trace s' = trace s ++ ext ∧ Forall (λ a, is_api a = false) ext.
Proof.
  assert (Hcount : ∀ m (ext : list Action), Forall (λ a, is_api a = false) ext →
            length (filter (λ a, is_api_call m a = true) ext) = 0).
  { intros m ext Hf. induction Hf as [|a ext Ha _ IH]; [done|].
    rewrite filter_cons. destruct a; simpl in *; try done. }
  assert (Hall : ∀ (g : GenState) (s : Slack T) outs g' s',
            consume n g s = (outs, g', s') → stream_frame s s').
  { induction n as [|n IH]; intros g s outs g' s'; simpl.
    - intros [= <- <- <-]. apply stream_frame_refl.
    - destruct (next_ g s) as [[o g1] s1] eqn:En.
      destruct (consume n g1 s1) as [[os g2] s2] eqn:Ec.
      intros [= <- <- <-]. eapply stream_frame_trans.
      + by eapply next_stream_frame.
      + by eapply IH. }
  intros g s outs g' s' Hc.
  destruct (Hall _ _ _ _ _ Hc) as (Ht & Hu & ext & He & Hf).
  split; [done|]. split; [done|].
  unfold api_calls. rewrite He, !filter_app, !length_app.
  rewrite (Hcount "channels.list" ext Hf), (Hcount "groups.list" ext Hf),
    (Hcount "users.info" ext Hf).
  repeat split; try lia. by exists ext.
Qed.


(** ** Reads and markers over a whole run *)

Lemma count_app (p : Action → bool) (l1 l2 : list Action) :
  count p (l1 ++ l2) = count p l1 + count p l2.
Proof. induction l1 as [|a l1 IH]; simpl; [done|]. rewrite IH. lia. Qed.

Lemma count_none (p : Action → bool) (l : list Action) :
  Forall (λ a, p a = false) l → count p l = 0.
Proof. induction 1 as [|a l Ha _ IH]; simpl; [done|]. by rewrite Ha, IH. Qed.

Lemma prints_no_read (pr : list Action) :
  Forall is_print pr → Forall (λ a, is_read a = false) pr.
Proof. intros Hp. eapply Forall_impl; [exact Hp|]. by intros a [e ->]. Qed.

Lemma prints_no_marker (pr : list Action) :
  Forall is_print pr → Forall (λ a, is_marker a = false) pr.
Proof. intros Hp. eapply Forall_impl; [exact Hp|]. by intros a [e ->]. Qed.

Lemma alternating_snoc (tr : list Action) (a : Action) :
  alternating tr → is_read a = false → alternating (tr ++ [a]).
Proof.
  intros Ha Hn l1 l2 Heq.
  destruct l2 as [|x l2 _] using rev_ind.
  - apply app_inj_tail in Heq as [_ ->]. done.
  - rewrite app_comm_cons, app_assoc in Heq.
    apply app_inj_tail in Heq as [-> _]. by apply (Ha l1 l2).
Qed.

Lemma alternating_app (tr ext : list Action) :
  alternating tr → Forall (λ a, is_read a = false) ext → alternating (tr ++ ext).
Proof.
  intros Ha Hf. revert tr Ha.
  induction Hf as [|a ext Hn _ IH]; intros tr Ha.
  - by rewrite app_nil_r.
  - rewrite (cons_middle a), app_assoc. apply IH. by apply alternating_snoc.
Qed.

Lemma alternating_read (tr : list Action) :
  alternating tr → ready tr → alternating (tr ++ [RtmRead]).
Proof.
  intros Ha Hr l1 l2 Heq.
  destruct l2 as [|x l2 _] using rev_ind.
  - apply app_inj_tail in Heq as [-> _]. exact Hr.
  - rewrite app_comm_cons, app_assoc in Heq.
    apply app_inj_tail in Heq as [-> _]. by apply (Ha l1 l2).
Qed.

Lemma for_loop_gen_trace (events : list json) (s : Slack T) o g' s' (tr : list Action) :
  alternating tr → count is_read tr = S (count is_marker tr) →
  for_loop events s = (o, g', s') →
  ∃ ext, trace s' = trace s ++ ext ∧ gen_trace g' (tr ++ ext).
Proof.
  intros Ha Hc Hf.
  apply for_loop_spec in Hf as (_ & _ & pr & Hp & Hcases).
  pose proof (count_none _ _ (prints_no_read _ Hp)) as Hpr.
  pose proof (count_none _ _ (prints_no_marker _ Hp)) as Hpm.
  pose proof (alternating_app tr pr Ha (prints_no_read _ Hp)) as Hap.
  destruct Hcases as [(-> & -> & Ht)|[(e & rest & sk & ev & -> & -> & _ & Ht)
    |(e & ev & s0 & s0' & -> & -> & _ & _ & Ht)]].
  - exists (pr ++ [Yielded None]). split; [done|]. simpl.
    rewrite app_assoc. split; [by apply alternating_snoc|]. split.
    + rewrite !count_app, Hpr, Hpm. simpl. lia.
    + right. by eexists.
  - exists (pr ++ [Yielded (Some e)]). split; [done|]. simpl.
    rewrite app_assoc. split; [by apply alternating_snoc|].
    rewrite !count_app, Hpr, Hpm. simpl. lia.
  - exists pr. split; [done|]. done.
Qed.

Lemma while_loop_gen_trace (s : Slack T) o g' s' (tr : list Action) :
  alternating tr → ready tr →
  while_loop s = (o, g', s') →
  ∃ ext, trace s' = trace s ++ ext ∧ gen_trace g' (tr ++ ext).
Proof.
  intros Ha Hr. unfold while_loop.
  destruct (read_events s) as [r s1] eqn:Er.
  apply read_events_spec in Er as [_ Ht].
  pose proof (alternating_read tr Ha Hr) as Har.
  assert (Hhead : ∃ hd, trace s1 = trace s ++ hd ∧ alternating (tr ++ hd)
                    ∧ count is_read (tr ++ hd) = S (count is_marker (tr ++ hd))).
  { destruct Hr as [Hcnt _]. destruct Ht as [Ht|Ht].
    - exists [RtmRead]. split; [done|]. split; [done|].
      rewrite !count_app. simpl. lia.
    - exists [RtmRead; RtmConnect]. split; [done|]. split.
      + rewrite (cons_middle RtmRead), app_assoc. by apply alternating_snoc.
      + rewrite !count_app. simpl. lia. }
  destruct Hhead as (hd & Hhd & Hah & Hch).
  destruct r as [events|e].
  - intros Hf. destruct (for_loop_gen_trace _ _ _ _ _ _ Hah Hch Hf) as (ext & He & Hg).
    exists (hd ++ ext). split; [by rewrite He, Hhd, app_assoc|]. by rewrite app_assoc.
  - intros [= <- <- <-]. exists hd. by split.
Qed.

Lemma gen_trace_alternating (g : GenState) (tr : list Action) :
  gen_trace g tr → alternating tr.
Proof.
  destruct g; simpl; [|tauto..].
  intros -> l1 l2 Heq. by destruct l1.
Qed.

Lemma next_gen_trace (g : GenState) (s : Slack T) o g' s' (tr : list Action) :
  gen_trace g tr →
  next_ g s = (o, g', s') →
  ∃ ext, trace s' = trace s ++ ext ∧ gen_trace g' (tr ++ ext).
Proof.
  destruct g as [|rest| |]; simpl.
  - intros ->. unfold do_rtm_connect.
    destruct (rtm_connect false (client s)) as [[|] c].
    + intros Hw.
      assert (Ha : alternating [RtmConnect]).
      { intros l1 l2 Heq. by destruct l1 as [|a [|b l1]]. }
      assert (Hr : ready [RtmConnect]) by (split; [done|by left]).
      destruct (while_loop_gen_trace _ _ _ _ _ Ha Hr Hw) as (ext & He & Hg).
      exists (RtmConnect :: ext). split; [|done].
      rewrite He. simpl. by rewrite <- app_assoc.
    + intros [= <- <- <-]. exists [RtmConnect]. split; [done|].
      simpl. intros l1 l2 Heq. by destruct l1 as [|a [|b l1]].
  - intros [Ha Hc]. by apply for_loop_gen_trace.
  - intros [Ha Hr]. by apply while_loop_gen_trace.
  - intros Ha [= <- <- <-]. exists []. by rewrite !app_nil_r.
Qed.

(** X20. In the whole trace of a run of the event sequence, from its
    creation: before every read there were as many markers as reads,
    and what came just before the read is a marker, or, for the first
    read, the opening handshake. *)
Theorem reads_and_markers_alternate (n : nat) (s : Slack T) outs g' s' :
  consume n events_iter s = (outs, g', s') →
  ∃ tr, trace s' = trace s ++ tr ∧ alternating tr.
Proof.
  assert (Hgen : ∀ (g : GenState) (tr : list Action) (s0 : Slack T) outs0 g0 s0',
            gen_trace g tr → consume n g s0 = (outs0, g0, s0') →
            ∃ ext, trace s0' = trace s0 ++ ext ∧ gen_trace g0 (tr ++ ext)).
  { induction n as [|n IH]; intros g tr s0 outs0 g0 s0' Hg; simpl.
    - intros [= <- <- <-]. exists []. by rewrite !app_nil_r.
    - destruct (next_ g s0) as [[o g1] s1] eqn:En.
      destruct (consume n g1 s1) as [[os g2] s2] eqn:Ec.
      intros [= <- <- <-].
      destruct (next_gen_trace _ _ _ _ _ _ Hg En) as (e1 & He1 & Hg1).
      destruct (IH _ _ _ _ _ _ Hg1 Ec) as (e2 & He2 & Hg2).
      exists (e1 ++ e2). split; [by rewrite He2, He1, app_assoc|].
      by rewrite app_assoc. }
  intros Hc. destruct (Hgen events_iter [] s outs g' s' eq_refl Hc) as (ext & He & Hg).
  exists ext. split; [done|]. by apply gen_trace_alternating in Hg.
Qed.

(** ** Reads that fail for another reason *)

(** X21. A read that raises anything but a broken pipe or a timeout is
    not recovered: no handshake is attempted, the exception reaches
    the consumer and the stream is over. *)
Theorem other_read_failure_not_recovered (s : Slack T) (e : exn) (c1 : T) :
  rtm_read (client s) = (Raise e, c1) →
  transport_failure e = false →
  ∃ s', next_ AtMarker s = (Raises e, Finished, s')
    ∧ trace s' = trace s ++ [RtmRead]
    ∧ client s' = c1
    ∧ ∀ n, consume n Finished s' = (replicate n StopIteration, Finished, s').
Proof.
  intros Hr He. eexists. split.
  - simpl. unfold while_loop, read_events, do_rtm_read. by rewrite Hr, He.
  - split; [done|]. split; [done|]. intros n. apply consume_finished.
Qed.

(** X18. Handling one envelope changes at most one thing: it evicts one
    user that the table held, or it prints the envelope, or it does
    nothing. It changes nothing when an event is handed over and
    nothing when it raises, and never the client or a memoisation
    table. *)
Theorem envelope_touches_one_thing (event : json) (s : Slack T) r s' :
  handle_event event s = (r, s') →
  envelope_effect event s s'
  ∧ (∀ e, r = Return (Emit e) → s' = s)
  ∧ (∀ e, r = Raise e → s' = s)
  ∧ client s' = client s
  ∧ same_tables s s'.
Proof.
  intros Hh. destruct (handle_event_effect _ _ _ _ Hh) as (He & Hemit & Hraise).
  destruct (frames_handle_event _ _ _ _ Hh) as (Hc & Ht & _).
  done.
Qed.

End More.

(** * The further properties on the sample instances *)

Lemma get_channel_finds_first_witness :
  ∃ s', repeat_call 3 (get_channel "G1") Sample.fresh
        = (replicate 3 (Return Sample.secret), s')
    ∧ trace s' = trace (channels Sample.fresh).2.
Proof.
  destruct (get_channel_finds_first Sample.fresh [Sample.general; Sample.secret]
              (channels Sample.fresh).2 "G1" Sample.secret 2)
    as (_ & _ & s' & Hcalls & Htrace & _).
  - exists (client Sample.fresh). apply evolves_refl.
  - vm_compute; reflexivity.
  - vm_compute; reflexivity.
  - exists s'. split; [exact Hcalls|exact Htrace].
Defined.

Lemma get_channel_by_name_finds_first_witness :
  ∃ s', repeat_call 3 (get_channel_by_name "general") Sample.fresh
        = (replicate 3 (Return Sample.general), s')
    ∧ trace s' = trace (channels Sample.fresh).2.
Proof.
  destruct (get_channel_by_name_finds_first Sample.fresh
              [Sample.general; Sample.secret]
              (channels Sample.fresh).2 "general" Sample.general 2)
    as (_ & _ & s' & Hcalls & Htrace & _).
  - exists (client Sample.fresh). apply evolves_refl.
  - vm_compute; reflexivity.
  - vm_compute; reflexivity.
  - exists s'. split; [exact Hcalls|exact Htrace].
Defined.

Lemma lookup_propagates_listing_failure_witness :
  get_channel "C1" Sample.shut_out
  = (Raise (ResponseException (ArgResponse (mkResponse false ∅))),
     (channels Sample.shut_out).2)
  ∧ get_channel_cache (channels Sample.shut_out).2 = [].
Proof.
  destruct (lookup_propagates_listing_failure Sample.shut_out
              (ResponseException (ArgResponse (mkResponse false ∅)))
              (channels Sample.shut_out).2)
    as (Hid & _ & _ & Hcache & _).
  - exists (client Sample.shut_out). apply evolves_refl.
  - vm_compute; reflexivity.
  - split; [exact (Hid "C1")|exact Hcache].
Defined.

Lemma channels_stops_at_first_refusal_witness :
  ∃ s', channels Sample.shut_out
        = (Raise (ResponseException (ArgResponse (mkResponse false ∅))), s')
    ∧ trace s' = [ApiCall "channels.list" exclude_archived].
Proof.
  destruct (channels_stops_at_first_refusal Sample.shut_out Sample.refusal
              (mkScript [Sample.refusal] [] []) (mkResponse false ∅))
    as (s' & Hraise & Htrace & _); [vm_compute; reflexivity .. |].
  exists s'. split; [exact Hraise|exact Htrace].
Defined.

Lemma channels_missing_collection_witness :
  ∃ s', channels Sample.short_reply = (Raise (KeyError (ArgKey "channels")), s')
    ∧ channels_cache s' = [].
Proof.
  destruct (channels_missing_collection Sample.short_reply Sample.bare_ok
              (mkScript [] [] []) (mkResponse true ∅))
    as (s' & Hraise & Hcache & _); [vm_compute; reflexivity .. |].
  exists s'. split; [exact Hraise|exact Hcache].
Defined.

Lemma get_user_round_trip_witness :
  ∃ s', repeat_call 3 (get_user "U1") Sample.asks_ann
        = (replicate 3 (Return Sample.ann), s')
    ∧ trace s' = [ApiCall "users.info" {[ "user" := JStr "U1" ]}].
Proof.
  destruct (get_user_round_trip Sample.asks_ann "U1" Sample.user_reply
              (mkScript [] [] []) (mkResponse true ∅) Sample.ann 2)
    as (s' & Hcalls & Htrace & _); [vm_compute; reflexivity .. |].
  exists s'. split; [exact Hcalls|exact Htrace].
Defined.

Lemma get_user_refusal_not_stored_witness :
  ∃ s', get_user "U1" Sample.shut_out
        = (Raise (KeyError (ArgResponse (mkResponse false ∅))), s')
    ∧ _usercache s' = ∅.
Proof.
  destruct (get_user_refusal_not_stored Sample.shut_out "U1" Sample.refusal
              (mkScript [Sample.refusal] [] []) (mkResponse false ∅))
    as (s' & Hraise & Hcache & _); [vm_compute; reflexivity .. |].
  exists s'. split; [exact Hraise|exact Hcache].
Defined.

Lemma send_message_never_memoised_witness :
  api_calls "chat.postMessage"
    (trace (repeat_call 3 (send_message "C1" "hi") Sample.fresh).2) = 3.
Proof.
  destruct (send_message_never_memoised Sample.fresh "C1" "hi" 3
              (repeat_call 3 (send_message "C1" "hi") Sample.fresh).1
              (repeat_call 3 (send_message "C1" "hi") Sample.fresh).2)
    as (_ & Hcount & _); [vm_compute; reflexivity |].
  exact Hcount.
Defined.

Lemma plain_message_emitted_witness :
  handle_event (JDict Sample.said) Sample.streaming
  = (Return (Emit (EvMessage (mkMessage "C1" "U1" "hi"))), Sample.streaming).
Proof.
  destruct (plain_message_emitted Sample.streaming Sample.said "C1" "U1" "hi" [])
    as (Hhandle & _); [vm_compute; reflexivity .. |].
  exact Hhandle.
Defined.

Lemma user_typing_emitted_witness :
  handle_event (JDict Sample.typing) Sample.streaming
  = (Return (Emit (EvUserTyping (mkUserTyping "C1" "U2"))), Sample.streaming).
Proof.
  destruct (user_typing_emitted Sample.streaming Sample.typing "C1" "U2" [])
    as (Hhandle & _); [vm_compute; reflexivity .. |].
  exact Hhandle.
Defined.

Lemma file_deleted_emitted_witness :
  handle_event (JDict Sample.file_gone) Sample.streaming
  = (Return (Emit (EvFileDeleted (mkFileDeleted "F1" []))), Sample.streaming)
  ∧ handle_event (JDict Sample.file_gone_from) Sample.streaming
  = (Return (Emit (EvFileDeleted (mkFileDeleted "F1" ["C1"; "G1"]))),
     Sample.streaming).
Proof.
  split.
  - destruct (file_deleted_emitted Sample.streaming Sample.file_gone "F1" [])
      as (Hnone & _); [vm_compute; reflexivity .. |].
    apply Hnone. vm_compute; reflexivity.
  - destruct (file_deleted_emitted Sample.streaming Sample.file_gone_from "F1"
                ["C1"; "G1"])
      as (_ & Hsome); [vm_compute; reflexivity .. |].
    apply Hsome. vm_compute; reflexivity.
Defined.

Lemma useless_envelope_skipped_witness :
  handle_event (JDict Sample.hello_fields) Sample.streaming
  = (Return Quiet, Sample.streaming).
Proof.
  destruct (useless_envelope_skipped Sample.streaming Sample.hello_fields "hello" [])
    as (Hhandle & _).
  - vm_compute; reflexivity.
  - right. right. reflexivity.
  - exact Hhandle.
Defined.

Lemma unknown_kind_printed_witness :
  handle_event (JDict Sample.pong_fields) Sample.streaming
  = (Return Quiet, record (Printed (JDict Sample.pong_fields)) Sample.streaming).
Proof.
  destruct (unknown_kind_printed Sample.streaming Sample.pong_fields [])
    as (Hhandle & _).
  - right. exists "pong". split; [vm_compute; reflexivity|].
    apply (bool_decide_unpack _). vm_compute. exact I.
  - exact Hhandle.
Defined.

Lemma other_subtype_dropped_witness :
  handle_event (JDict Sample.bot_said) Sample.streaming
  = (Return Quiet, record (Printed (JDict Sample.bot_said)) Sample.streaming).
Proof.
  destruct (other_subtype_dropped Sample.streaming Sample.bot_said "bot_message" [])
    as (Hhandle & _);
    [vm_compute; reflexivity | vm_compute; reflexivity
    | discriminate | discriminate | discriminate |].
  exact Hhandle.
Defined.

Lemma unhashable_kind_ends_stream_witness :
  next_ (Suspended [JDict Sample.odd_kind; JDict Sample.said]) Sample.streaming
  = (Raises TypeError, Finished, Sample.streaming).
Proof.
  apply (unhashable_kind_ends_stream Sample.streaming Sample.odd_kind
           (JList [JStr "message"]) [JDict Sample.said]).
  - vm_compute; reflexivity.
  - left. by eexists.
Defined.

Lemma malformed_edit_ends_stream_witness :
  next_ (Suspended [JDict Sample.edit_without_channel; JDict Sample.said])
    Sample.streaming
  = (Raises (KeyError (ArgKey "channel")), Finished, Sample.streaming).
Proof.
  destruct (malformed_edit_ends_stream Sample.streaming Sample.edit_without_channel
              [JDict Sample.said])
    as (Hchannel & _); [vm_compute; reflexivity .. |].
  apply Hchannel. vm_compute; reflexivity.
Defined.

Lemma emitted_kind_witness :
  Sample.edited !! "subtype" = Some (JStr "message_changed")
  ∧ Sample.edited !! "channel" = Some (JStr "C1").
Proof.
  destruct (emitted_kind Sample.streaming Sample.edited
              (EvMessageEdit
                 (mkMessageEdit (mkMessage "C1" "U1" "old") (mkMessage "C1" "U1" "new")))
              Sample.streaming)
    as (_ & _ & Hsub & Hchannel & _); [vm_compute; reflexivity |].
  split; [exact Hsub|exact Hchannel].
Defined.

Lemma envelope_touches_one_thing_witness :
  envelope_effect (JDict Sample.changed) Sample.knows_ann
    (handle_event (JDict Sample.changed) Sample.knows_ann).2.
Proof.
  destruct (envelope_touches_one_thing (JDict Sample.changed) Sample.knows_ann
              (handle_event (JDict Sample.changed) Sample.knows_ann).1
              (handle_event (JDict Sample.changed) Sample.knows_ann).2)
    as (Heffect & _); [vm_compute; reflexivity |].
  exact Heffect.
Defined.

Lemma events_leave_the_rest_alone_witness :
  same_tables Sample.two_batches (consume 6 events_iter Sample.two_batches).2
  ∧ api_calls "users.info" (trace (consume 6 events_iter Sample.two_batches).2) = 0.
Proof.
  destruct (events_leave_the_rest_alone 6 events_iter Sample.two_batches
              (consume 6 events_iter Sample.two_batches).1.1
              (consume 6 events_iter Sample.two_batches).1.2
              (consume 6 events_iter Sample.two_batches).2)
    as (Htables & _ & _ & _ & Hinfo & _); [vm_compute; reflexivity |].
  split; [exact Htables|exact Hinfo].
Defined.

Lemma reads_and_markers_alternate_witness :
  ∃ tr, trace (consume 6 events_iter Sample.two_batches).2
        = trace Sample.two_batches ++ tr
    ∧ alternating tr.
Proof.
  apply (reads_and_markers_alternate 6 Sample.two_batches
           (consume 6 events_iter Sample.two_batches).1.1
           (consume 6 events_iter Sample.two_batches).1.2).
  vm_compute; reflexivity.
Defined.

Lemma other_read_failure_not_recovered_witness :
  ∃ s', next_ AtMarker Sample.reset
        = (Raises (OtherError "ConnectionResetError"), Finished, s')
    ∧ trace s' = [RtmRead].
Proof.
  destruct (other_read_failure_not_recovered Sample.reset
              (OtherError "ConnectionResetError") (mkScript [] [true] []))
    as (s' & Hnext & Htrace & _); [vm_compute; reflexivity .. |].
  exists s'. split; [exact Hnext|exact Htrace].
Defined.
